(** * Tile descriptors and tile batches (wsd/TileDesc.hpp)

    A shallow embedding of [TileDesc] and [TileCombined] together with the
    collaborators they call (the protocol helpers of [LOOLProtocol], Poco's
    string tokenizer and the C++ output string stream), followed by the
    properties of the codec and of the geometry predicates. *)

From Stdlib Require Import ZArith Bool Ascii String List Lia.
From Stdlib Require Import Decimal DecimalString DecimalPos DecimalN DecimalZ.
From stdpp Require Import gmap strings.

Open Scope Z_scope.

(* Literal prefixes of the wire grammar should compute under [simpl]. *)
Arguments String.append !_ _ / : simpl nomatch.

(** ** Machine integers

    [int] is a 32-bit two's-complement integer and [uint64_t] a 64-bit
    unsigned one; both are carried as [Z] with the range written out. *)

Definition INT_MIN : Z := -2147483648.
Definition INT_MAX : Z := 2147483647.
Definition UINT64_MAX : Z := 18446744073709551615.

Definition is_int (z : Z) : Prop := INT_MIN <= z <= INT_MAX.
Definition is_uint64 (z : Z) : Prop := 0 <= z <= UINT64_MAX.

(** Reduction of a mathematical integer to the [int] that holds it. *)
Definition int_wrap (z : Z) : Z := (z + 2147483648) mod 4294967296 - 2147483648.

(** [a + b] on [int].  Signed overflow is undefined in C++; the model takes
    the two's-complement result. *)
Definition int_add (a b : Z) : Z := int_wrap (a + b).

(** ** Strings *)

Definition is_empty (s : string) : bool :=
  match s with EmptyString => true | String _ _ => false end.

Fixpoint string_all (p : ascii -> bool) (s : string) : bool :=
  match s with
  | EmptyString => true
  | String c r => p c && string_all p r
  end.

(** [std::string::substr(0, n)]. *)
Fixpoint substr0 (n : nat) (s : string) : string :=
  match n, s with
  | O, _ => EmptyString
  | S _, EmptyString => EmptyString
  | S m, String c r => String c (substr0 m r)
  end.

Fixpoint drop_chars (n : nat) (s : string) : string :=
  match n, s with
  | O, _ => s
  | S _, EmptyString => EmptyString
  | S m, String _ r => drop_chars m r
  end.

(** All the fragments of [s] between separator characters, empty ones
    included: a string with [k] separators has [k + 1] fragments. *)
Fixpoint split_on (is_sep : ascii -> bool) (s : string) : list string :=
  match s with
  | EmptyString => [EmptyString]
  | String c r =>
      if is_sep c then EmptyString :: split_on is_sep r
      else match split_on is_sep r with
           | t :: ts => String c t :: ts
           | [] => [String c EmptyString]
           end
  end.

Fixpoint trim_left (s : string) : string :=
  match s with
  | EmptyString => EmptyString
  | String c r => if Ascii.is_space c then trim_left r else s
  end.

Fixpoint trim_right (s : string) : string :=
  match s with
  | EmptyString => EmptyString
  | String c r =>
      match trim_right r with
      | EmptyString => if Ascii.is_space c then EmptyString else String c EmptyString
      | r' => String c r'
      end
  end.

Definition trim (s : string) : string := trim_right (trim_left s).

(** No character of [s] is a separator. *)
Definition no_separator (is_sep : ascii -> bool) (s : string) : bool :=
  string_all (fun c => negb (is_sep c)) s.

(** The elements joined with a separator strictly between them. *)
Fixpoint join_with (sep : string) (l : list string) : string :=
  match l with
  | [] => EmptyString
  | [x] => x
  | x :: rest => x +:+ sep +:+ join_with sep rest
  end.

(** Every element followed by the separator (the incremental append). *)
Fixpoint concat_terminated (sep : string) (l : list string) : string :=
  match l with
  | [] => EmptyString
  | x :: rest => x +:+ sep +:+ concat_terminated sep rest
  end.

(** ** Decimal output of [operator<<]

    [operator<<] on an [int] or a [uint64_t] writes the shortest decimal
    numeral, with a leading minus sign for a negative value. *)
Definition to_string (z : Z) : string := NilZero.string_of_int (Z.to_int z).

(** ** Exceptions and results *)

Inductive exception : Type :=
| BadArgumentException (what : string)
| RangeException
| AssertionFailure.

Inductive result (A : Type) : Type :=
| Ok (a : A)
| Throw (e : exception).
Arguments Ok {A} a.
Arguments Throw {A} e.

#[global] Instance result_ret : MRet result := fun A a => Ok a.
#[global] Instance result_bind : MBind result := fun A B k r =>
  match r with
  | Ok a => k a
  | Throw e => Throw e
  end.

Definition throw_unless {A : Type} (o : option A) (e : exception) : result A :=
  match o with
  | Some a => Ok a
  | None => Throw e
  end.

(** ** [std::ostringstream]

    The buffer, the put position and the fail bit.  A write replaces the
    characters under the put position and extends the buffer past its end;
    [str] returns the whole buffer whatever the put position is. *)
Module ostringstream.

Record t : Type := mk { buf : string; pos : nat; failbit : bool }.

Definition empty : t := mk EmptyString 0 false.

Fixpoint overwrite (b : string) (p : nat) (s : string) : string :=
  match p, b with
  | O, _ => s +:+ drop_chars (String.length s) b
  | S q, String c r => String c (overwrite r q s)
  | S _, EmptyString => s
  end.

(** [oss << s] *)
Definition write (o : t) (s : string) : t :=
  if failbit o then o
  else mk (overwrite (buf o) (pos o) s) (pos o + String.length s) false.

(** [oss.seekp(off, std::ios_base::cur)]: a target outside the buffer sets
    the fail bit and leaves the position alone. *)
Definition seekp_cur (o : t) (off : Z) : t :=
  if failbit o then o
  else
    let p := Z.of_nat (pos o) + off in
    if (p <? 0) || (Z.of_nat (String.length (buf o)) <? p)
    then mk (buf o) (pos o) true
    else mk (buf o) (Z.to_nat p) false.

(** [oss.tellp()]: -1 once the stream has failed. *)
Definition tellp (o : t) : Z :=
  if failbit o then -1 else Z.of_nat (pos o).

(** [oss.str()] *)
Definition str (o : t) : string := buf o.

End ostringstream.

Declare Scope oss_scope.
Delimit Scope oss_scope with oss.
Notation "o << s" := (ostringstream.write o s)
  (at level 50, left associativity) : oss_scope.
Open Scope oss_scope.

(** [s.substr(0, n)] where [n] was converted to [size_t]: a negative [n]
    becomes a count larger than any string. *)
Definition substr_to (s : string) (n : Z) : string :=
  if n <? 0 then s else substr0 (Z.to_nat n) s.

(** ** [Poco::StringTokenizer]

    Only the use the source makes of it: the options
    [TOK_IGNORE_EMPTY | TOK_TRIM], [count()] and [operator[]]. *)
Module StringTokenizer.

Fixpoint is_separator (separators : string) (c : ascii) : bool :=
  match separators with
  | EmptyString => false
  | String s r => Ascii.eqb c s || is_separator r c
  end.

(** Modelled from the spec: Poco's tokenizer is not part of the sources;
    the spec has it "split on comma trimming whitespace and ignoring empty
    fragments". *)
Definition tokens (str separators : string) : list string :=
  List.filter (fun t => negb (is_empty t))
              (List.map trim (split_on (is_separator separators) str)).

Definition count (tk : list string) : nat := length tk.

(** [tk[i]], which throws [Poco::RangeException] past the end. *)
Definition at_ (tk : list string) (i : nat) : result string :=
  throw_unless (tk !! i) RangeException.

End StringTokenizer.

(** ** The protocol helpers ([Protocol.hpp], namespace [LOOLProtocol])

    Each helper of the source has the shape [bool f(input, T& value)]: it
    returns [true] and sets [value], or returns [false] and leaves [value]
    alone.  The model returns [Some value] or [None]. *)
Module LOOLProtocol.

(** Modelled from the spec: [Protocol.hpp] is not part of the sources; the
    spec has "a tokenizer splitting a raw message into tokens on
    whitespace". *)
Definition tokenize (message : string) : list string :=
  List.filter (fun t => negb (is_empty t)) (split_on Ascii.is_space message).

(** Modelled from the spec: [stringToInteger] is not part of the sources;
    it is one of the spec's "integer-parsing primitives".  A decimal
    numeral with an optional minus sign whose value fits an [int]. *)
Definition stringToInteger (input : string) : option Z :=
  match NilZero.int_of_string input with
  | Some d =>
      let value := Z.of_int d in
      if (INT_MIN <=? value) && (value <=? INT_MAX) then Some value else None
  | None => None
  end.

(** Modelled from the spec: [stringToUInt64] is not part of the sources;
    an unsigned decimal numeral whose value fits a [uint64_t]. *)
Definition stringToUInt64 (input : string) : option Z :=
  match NilZero.uint_of_string input with
  | Some d =>
      let value := Z.of_uint d in
      if value <=? UINT64_MAX then Some value else None
  | None => None
  end.

(** Modelled from the spec: [parseNameValuePair] is not part of the
    sources; it reads a [name=value] token, the name ending at the first
    ['=']. *)
Fixpoint parseNameValuePair (token : string) : option (string * string) :=
  match token with
  | EmptyString => None
  | String c rest =>
      if Ascii.eqb c "=" then Some (EmptyString, rest)
      else match parseNameValuePair rest with
           | Some (name, value) => Some (String c name, value)
           | None => None
           end
  end.

(** Modelled from the spec: [parseNameIntegerPair] is not part of the
    sources; it reads a token as [name=integer]. *)
Definition parseNameIntegerPair (token : string) : option (string * Z) :=
  match parseNameValuePair token with
  | Some (name, strValue) =>
      match stringToInteger strValue with
      | Some value => Some (name, value)
      | None => None
      end
  | None => None
  end.

(** Modelled from the spec: [getTokenUInt64] is not part of the sources;
    it is the spec's helper that extracts a named uint64 from a token. *)
Definition getTokenUInt64 (token name : string) : option Z :=
  match parseNameValuePair token with
  | Some (n, strValue) =>
      if String.eqb n name then stringToUInt64 strValue else None
  | None => None
  end.

(** Modelled from the spec: [getTokenString] on one token is not part of
    the sources; the value of a [name=value] token with the given name. *)
Definition getTokenString1 (token name : string) : option string :=
  match parseNameValuePair token with
  | Some (n, value) => if String.eqb n name then Some value else None
  | None => None
  end.

(** Modelled from the spec: [getTokenString] on a token list is not part of
    the sources; the value of the first token with the given name. *)
Fixpoint getTokenString (tokens : list string) (name : string) : option string :=
  match tokens with
  | [] => None
  | token :: rest =>
      match getTokenString1 token name with
      | Some value => Some value
      | None => getTokenString rest name
      end
  end.

End LOOLProtocol.

(** [pairs[name]] on a [std::map<std::string, int>]: a missing key reads as
    the value-initialised [0]. *)
Definition map_at (pairs : gmap string Z) (name : string) : Z :=
  default 0 (pairs !! name).

(** ** [class TileDesc] *)
Module TileDesc.

Record t : Type := mk {
  _part : Z;
  _width : Z;
  _height : Z;
  _tilePosX : Z;
  _tilePosY : Z;
  _tileWidth : Z;
  _tileHeight : Z;
  _ver : Z;
  _imgSize : Z;
  _id : Z;
  _broadcast : bool;
  _oldHash : Z;
  _hash : Z
}.

(** The constructor: the hashes start at 0 and the scalar invariants are
    checked once every field is set. *)
Definition TileDesc (part width height tilePosX tilePosY tileWidth tileHeight
                     ver imgSize id : Z) (broadcast : bool) : result t :=
  if (part <? 0) || (width <=? 0) || (height <=? 0) ||
     (tilePosX <? 0) || (tilePosY <? 0) ||
     (tileWidth <=? 0) || (tileHeight <=? 0) || (imgSize <? 0)
  then Throw (BadArgumentException "Invalid tile descriptor.")
  else Ok (mk part width height tilePosX tilePosY tileWidth tileHeight
              ver imgSize id broadcast 0 0).

Definition getPart (d : t) : Z := _part d.
Definition getWidth (d : t) : Z := _width d.
Definition getHeight (d : t) : Z := _height d.
Definition getTilePosX (d : t) : Z := _tilePosX d.
Definition getTilePosY (d : t) : Z := _tilePosY d.
Definition getTileWidth (d : t) : Z := _tileWidth d.
Definition getTileHeight (d : t) : Z := _tileHeight d.
Definition getVersion (d : t) : Z := _ver d.
Definition getImgSize (d : t) : Z := _imgSize d.
Definition getId (d : t) : Z := _id d.
Definition getBroadcast (d : t) : bool := _broadcast d.
Definition getOldHash (d : t) : Z := _oldHash d.
Definition getHash (d : t) : Z := _hash d.

Definition setVersion (d : t) (ver : Z) : t :=
  mk (_part d) (_width d) (_height d) (_tilePosX d) (_tilePosY d)
     (_tileWidth d) (_tileHeight d) ver (_imgSize d) (_id d)
     (_broadcast d) (_oldHash d) (_hash d).
Definition setImgSize (d : t) (imgSize : Z) : t :=
  mk (_part d) (_width d) (_height d) (_tilePosX d) (_tilePosY d)
     (_tileWidth d) (_tileHeight d) (_ver d) imgSize (_id d)
     (_broadcast d) (_oldHash d) (_hash d).
Definition setOldHash (d : t) (hash : Z) : t :=
  mk (_part d) (_width d) (_height d) (_tilePosX d) (_tilePosY d)
     (_tileWidth d) (_tileHeight d) (_ver d) (_imgSize d) (_id d)
     (_broadcast d) hash (_hash d).
Definition setHash (d : t) (hash : Z) : t :=
  mk (_part d) (_width d) (_height d) (_tilePosX d) (_tilePosY d)
     (_tileWidth d) (_tileHeight d) (_ver d) (_imgSize d) (_id d)
     (_broadcast d) (_oldHash d) hash.

(** [operator==]: the identity fields only. *)
Definition equal (d other : t) : bool :=
  (_part d =? _part other) &&
  (_width d =? _width other) &&
  (_height d =? _height other) &&
  (_tilePosX d =? _tilePosX other) &&
  (_tilePosY d =? _tilePosY other) &&
  (_tileWidth d =? _tileWidth other) &&
  (_tileHeight d =? _tileHeight other) &&
  (_id d =? _id other) &&
  Bool.eqb (_broadcast d) (_broadcast other).

Definition intersectsWithRect (d : t) (x y w h : Z) : bool :=
  (int_add x w >=? getTilePosX d) &&
  (x <=? int_add (getTilePosX d) (getTileWidth d)) &&
  (int_add y h >=? getTilePosY d) &&
  (y <=? int_add (getTilePosY d) (getTileHeight d)).

Definition intersects (d other : t) : bool :=
  intersectsWithRect d (getTilePosX other) (getTilePosY other)
                       (getTileWidth other) (getTileHeight other).

Definition isAdjacent (d other : t) : bool :=
  if negb (getPart other =? getPart d) ||
     negb (getWidth other =? getWidth d) ||
     negb (getHeight other =? getHeight d) ||
     negb (getTileWidth other =? getTileWidth d) ||
     negb (getTileHeight other =? getTileHeight d)
  then false
  else intersects d other.

Definition onSameRow (d other : t) : bool :=
  if negb (getPart other =? getPart d) ||
     negb (getWidth other =? getWidth d) ||
     negb (getHeight other =? getHeight d) ||
     negb (getTileWidth other =? getTileWidth d) ||
     negb (getTileHeight other =? getTileHeight d)
  then false
  else (int_add (getTilePosY other) (getTileHeight other) >=? getTilePosY d) &&
       (getTilePosY other <=? int_add (getTilePosY d) (getTileHeight d)).

(** [serialize(prefix)] *)
Definition serialize (prefix : string) (d : t) : string :=
  let oss := ostringstream.empty in
  let oss := oss << prefix
                 << " part=" << to_string (_part d)
                 << " width=" << to_string (_width d)
                 << " height=" << to_string (_height d)
                 << " tileposx=" << to_string (_tilePosX d)
                 << " tileposy=" << to_string (_tilePosY d)
                 << " tilewidth=" << to_string (_tileWidth d)
                 << " tileheight=" << to_string (_tileHeight d)
                 << " oldhash=" << to_string (_oldHash d)
                 << " hash=" << to_string (_hash d) in
  let oss := oss << " ver=" << to_string (_ver d) in
  let oss := if 0 <=? _id d then oss << " id=" << to_string (_id d) else oss in
  let oss := if 0 <? _imgSize d
             then oss << " imgsize=" << to_string (_imgSize d) else oss in
  let oss := if _broadcast d then oss << " broadcast=yes" else oss in
  ostringstream.str oss.

(** The state of the token loop of [parse]: the name/integer pairs and the
    two hashes. *)
Record scan : Type := mkScan {
  pairs : gmap string Z;
  oldHash : Z;
  hash : Z
}.

(** One iteration of the token loop. *)
Definition parse_token (st : scan) (token : string) : scan :=
  match LOOLProtocol.getTokenUInt64 token "oldhash" with
  | Some v => mkScan (pairs st) v (hash st)
  | None =>
      match LOOLProtocol.getTokenUInt64 token "hash" with
      | Some v => mkScan (pairs st) (oldHash st) v
      | None =>
          match LOOLProtocol.parseNameIntegerPair token with
          | Some (name, value) =>
              mkScan (<[name := value]> (pairs st)) (oldHash st) (hash st)
          | None => st
          end
      end
  end.

(** [parse(const std::vector<std::string>& tokens)] *)
Definition parse (tokens : list string) : result t :=
  let pairs0 : gmap string Z :=
    <["id" := -1]> (<["imgsize" := 0]> (<["ver" := -1]> ∅)) in
  let st := fold_left parse_token tokens (mkScan pairs0 0 0) in
  let broadcast :=
    match LOOLProtocol.getTokenString tokens "broadcast" with
    | Some s => String.eqb s "yes"
    | None => false
    end in
  let pairs := pairs st in
  result ← TileDesc (map_at pairs "part") (map_at pairs "width")
                    (map_at pairs "height")
                    (map_at pairs "tileposx") (map_at pairs "tileposy")
                    (map_at pairs "tilewidth") (map_at pairs "tileheight")
                    (map_at pairs "ver")
                    (map_at pairs "imgsize") (map_at pairs "id") broadcast;
  let result := setOldHash result (oldHash st) in
  let result := setHash result (hash st) in
  Ok result.

(** [parse(const std::string& message)] *)
Definition parse_message (message : string) : result t :=
  parse (LOOLProtocol.tokenize message).

End TileDesc.

(** ** [class TileCombined] *)
Module TileCombined.

Record t : Type := mk {
  _tiles : list TileDesc.t;
  _part : Z;
  _width : Z;
  _height : Z;
  _tileWidth : Z;
  _tileHeight : Z;
  _id : Z
}.

Definition getPart (b : t) : Z := _part b.
Definition getWidth (b : t) : Z := _width b.
Definition getHeight (b : t) : Z := _height b.
Definition getTileWidth (b : t) : Z := _tileWidth b.
Definition getTileHeight (b : t) : Z := _tileHeight b.
Definition getTiles (b : t) : list TileDesc.t := _tiles b.

Definition unequal_number : exception :=
  BadArgumentException
    "Invalid tilecombine descriptor. Unequal number of tiles in parameters.".

(** [tokens.count() && !stringTo...(tokens[i], value)] with [value]
    initialised to [dflt]: a tokenizer without tokens leaves the default,
    otherwise the [i]-th token has to parse. *)
Definition optional_field (tokens : list string) (i : nat)
           (convert : string -> option Z) (dflt : Z) (e : exception) : result Z :=
  if (StringTokenizer.count tokens =? 0)%nat then Ok dflt
  else tok ← StringTokenizer.at_ tokens i; throw_unless (convert tok) e.

(** The body of the constructor's loop for index [i]: the tile it
    appends. *)
Definition tile_at (part width height tileWidth tileHeight id : Z)
           (positionXtokens positionYtokens imgSizeTokens verTokens
            oldHashTokens hashTokens : list string) (i : nat) : result TileDesc.t :=
  xtok ← StringTokenizer.at_ positionXtokens i;
  x ← throw_unless (LOOLProtocol.stringToInteger xtok)
        (BadArgumentException "Invalid 'tileposx' in tilecombine descriptor.");
  ytok ← StringTokenizer.at_ positionYtokens i;
  y ← throw_unless (LOOLProtocol.stringToInteger ytok)
        (BadArgumentException "Invalid 'tileposy' in tilecombine descriptor.");
  imgSize ← optional_field imgSizeTokens i LOOLProtocol.stringToInteger 0
        (BadArgumentException "Invalid 'imgsize' in tilecombine descriptor.");
  ver ← (if (StringTokenizer.count verTokens =? 0)%nat then Ok (-1)
         else vtok ← StringTokenizer.at_ verTokens i;
              if is_empty vtok then Ok (-1)
              else throw_unless (LOOLProtocol.stringToInteger vtok)
                     (BadArgumentException
                        "Invalid 'ver' in tilecombine descriptor."));
  oldHash ← optional_field oldHashTokens i LOOLProtocol.stringToUInt64 0
        (BadArgumentException "Invalid tilecombine descriptor.");
  hash ← optional_field hashTokens i LOOLProtocol.stringToUInt64 0
        (BadArgumentException "Invalid tilecombine descriptor.");
  tile ← TileDesc.TileDesc part width height x y tileWidth tileHeight
                           ver imgSize id false;
  Ok (TileDesc.setHash (TileDesc.setOldHash tile oldHash) hash).

(** One iteration of the constructor's loop: the tile for index [i] is
    appended, and an exception ends the construction. *)
Definition append_tile (tile_at : nat -> result TileDesc.t)
           (acc : result (list TileDesc.t)) (i : nat) : result (list TileDesc.t) :=
  tiles ← acc; tile ← tile_at i; Ok (tiles ++ [tile]).

(** The private constructor. *)
Definition TileCombined (part width height : Z)
           (tilePositionsX tilePositionsY : string)
           (tileWidth tileHeight : Z) (vers imgSizes : string) (id : Z)
           (oldHashes hashes : string) : result t :=
  if (part <? 0) || (width <=? 0) || (height <=? 0) ||
     (tileWidth <=? 0) || (tileHeight <=? 0)
  then Throw (BadArgumentException "Invalid tilecombine descriptor.")
  else
    let positionXtokens := StringTokenizer.tokens tilePositionsX "," in
    let positionYtokens := StringTokenizer.tokens tilePositionsY "," in
    let imgSizeTokens := StringTokenizer.tokens imgSizes "," in
    let verTokens := StringTokenizer.tokens vers "," in
    let oldHashTokens := StringTokenizer.tokens oldHashes "," in
    let hashTokens := StringTokenizer.tokens hashes "," in
    let numberOfPositions := StringTokenizer.count positionXtokens in
    if negb (numberOfPositions =? StringTokenizer.count positionYtokens)%nat ||
       (negb (is_empty imgSizes) &&
        negb (numberOfPositions =? StringTokenizer.count imgSizeTokens)%nat) ||
       (negb (is_empty vers) &&
        negb (numberOfPositions =? StringTokenizer.count verTokens)%nat) ||
       (negb (is_empty oldHashes) &&
        negb (numberOfPositions =? StringTokenizer.count oldHashTokens)%nat) ||
       (negb (is_empty hashes) &&
        negb (numberOfPositions =? StringTokenizer.count hashTokens)%nat)
    then Throw unequal_number
    else
      tiles ← fold_left
                (append_tile
                   (tile_at part width height tileWidth tileHeight id
                            positionXtokens positionYtokens imgSizeTokens
                            verTokens oldHashTokens hashTokens))
                (seq 0 numberOfPositions) (Ok []);
      Ok (mk tiles part width height tileWidth tileHeight id).

(** [for (const auto& tile : _tiles) oss << field(tile) << ',';] *)
Definition write_list (oss : ostringstream.t) (field : TileDesc.t -> Z)
           (tiles : list TileDesc.t) : ostringstream.t :=
  fold_left (fun oss tile => oss << to_string (field tile) << ",") tiles oss.

(** [serialize(prefix)] *)
Definition serialize (prefix : string) (b : t) : string :=
  let oss := ostringstream.empty in
  let oss := oss << prefix
                 << " part=" << to_string (_part b)
                 << " width=" << to_string (_width b)
                 << " height=" << to_string (_height b)
                 << " tileposx=" in
  let oss := write_list oss TileDesc.getTilePosX (_tiles b) in
  let oss := ostringstream.seekp_cur oss (-1) in
  let oss := oss << " tileposy=" in
  let oss := write_list oss TileDesc.getTilePosY (_tiles b) in
  let oss := ostringstream.seekp_cur oss (-1) in
  let oss := oss << " imgsize=" in
  let oss := write_list oss TileDesc.getImgSize (_tiles b) in
  let oss := ostringstream.seekp_cur oss (-1) in
  let oss := oss << " tilewidth=" << to_string (_tileWidth b)
                 << " tileheight=" << to_string (_tileHeight b) in
  let oss := oss << " ver=" in
  let oss := write_list oss TileDesc.getVersion (_tiles b) in
  let oss := ostringstream.seekp_cur oss (-1) in
  let oss := oss << " oldhash=" in
  let oss := write_list oss TileDesc.getOldHash (_tiles b) in
  let oss := ostringstream.seekp_cur oss (-1) in
  let oss := oss << " hash=" in
  let oss := write_list oss TileDesc.getHash (_tiles b) in
  let oss := ostringstream.seekp_cur oss (-1) in
  let oss := if 0 <=? _id b then oss << " id=" << to_string (_id b) else oss in
  substr_to (ostringstream.str oss) (ostringstream.tellp oss).

(** The state of the token loop of [parse]. *)
Record scan : Type := mkScan {
  pairs : gmap string Z;
  tilePositionsX : string;
  tilePositionsY : string;
  imgSizes : string;
  versions : string;
  oldhashes : string;
  hashes : string
}.

(** One iteration of the token loop. *)
Definition parse_token (st : scan) (token : string) : scan :=
  match LOOLProtocol.parseNameValuePair token with
  | Some (name, value) =>
      if String.eqb name "tileposx" then
        mkScan (pairs st) value (tilePositionsY st) (imgSizes st)
               (versions st) (oldhashes st) (hashes st)
      else if String.eqb name "tileposy" then
        mkScan (pairs st) (tilePositionsX st) value (imgSizes st)
               (versions st) (oldhashes st) (hashes st)
      else if String.eqb name "imgsize" then
        mkScan (pairs st) (tilePositionsX st) (tilePositionsY st) value
               (versions st) (oldhashes st) (hashes st)
      else if String.eqb name "ver" then
        mkScan (pairs st) (tilePositionsX st) (tilePositionsY st) (imgSizes st)
               value (oldhashes st) (hashes st)
      else if String.eqb name "oldhash" then
        mkScan (pairs st) (tilePositionsX st) (tilePositionsY st) (imgSizes st)
               (versions st) value (hashes st)
      else if String.eqb name "hash" then
        mkScan (pairs st) (tilePositionsX st) (tilePositionsY st) (imgSizes st)
               (versions st) (oldhashes st) value
      else
        match LOOLProtocol.stringToInteger value with
        | Some v =>
            mkScan (<[name := v]> (pairs st)) (tilePositionsX st)
                   (tilePositionsY st) (imgSizes st) (versions st)
                   (oldhashes st) (hashes st)
        | None => st
        end
  | None => st
  end.

(** [parse(const std::vector<std::string>& tokens)] *)
Definition parse (tokens : list string) : result t :=
  let pairs0 : gmap string Z := <["id" := -1]> ∅ in
  let st := fold_left parse_token tokens
              (mkScan pairs0 EmptyString EmptyString EmptyString EmptyString
                      EmptyString EmptyString) in
  let pairs := pairs st in
  TileCombined (map_at pairs "part") (map_at pairs "width")
               (map_at pairs "height")
               (tilePositionsX st) (tilePositionsY st)
               (map_at pairs "tilewidth") (map_at pairs "tileheight")
               (versions st)
               (imgSizes st) (map_at pairs "id") (oldhashes st) (hashes st).

(** [parse(const std::string& message)] *)
Definition parse_message (message : string) : result t :=
  parse (LOOLProtocol.tokenize message).

(** [for (const auto& tile : tiles) os << field(tile) << ',';] on one of
    the five streams of [create]. *)
Definition collect (field : TileDesc.t -> Z) (tiles : list TileDesc.t)
  : ostringstream.t :=
  fold_left (fun os tile => os << to_string (field tile) << ",")
            tiles ostringstream.empty.

(** [create(tiles)]; [assert(!tiles.empty())] stops the program on an
    empty sequence. *)
Definition create (tiles : list TileDesc.t) : result t :=
  match tiles with
  | [] => Throw AssertionFailure
  | tile0 :: _ =>
      let xs := collect TileDesc.getTilePosX tiles in
      let ys := collect TileDesc.getTilePosY tiles in
      let vers := collect TileDesc.getVersion tiles in
      let oldhs := collect TileDesc.getOldHash tiles in
      let hs := collect TileDesc.getHash tiles in
      let vers := ostringstream.seekp_cur vers (-1) in
      TileCombined (TileDesc.getPart tile0) (TileDesc.getWidth tile0)
                   (TileDesc.getHeight tile0)
                   (ostringstream.str xs) (ostringstream.str ys)
                   (TileDesc.getTileWidth tile0) (TileDesc.getTileHeight tile0)
                   (ostringstream.str vers) EmptyString (-1)
                   (ostringstream.str oldhs) (ostringstream.str hs)
  end.

End TileCombined.

(** * The vocabulary of the properties

    Predicates on characters and strings, the token lists the two
    [serialize] functions write, the validity of descriptors and batches,
    and the concrete tiles the examples use. *)

(** The characters [operator<<] writes for a number. *)
Definition is_numeral_char (c : ascii) : bool :=
  match Ascii.is_nat c with
  | Some _ => true
  | None => Ascii.eqb c "-"
  end.

Definition not_space (c : ascii) : bool := negb (Ascii.is_space c).
Definition not_comma (c : ascii) : bool :=
  negb (StringTokenizer.is_separator "," c).
Definition not_equals (c : ascii) : bool := negb (Ascii.eqb c "=").

(** A string no tokenizer cuts or trims: non-empty, without whitespace. *)
Definition is_word (s : string) : bool :=
  negb (is_empty s) && string_all not_space s.

(** The tokens, each after a space: the shape [serialize] gives a record. *)
Fixpoint concat_tokens (l : list string) : string :=
  match l with
  | [] => ""
  | t :: rest => " " +:+ t +:+ concat_tokens rest
  end.

(** An element of a comma list: a word without a comma. *)
Definition is_element (s : string) : bool := is_word s && string_all not_comma s.

(** A stream in good state whose put position is the end of its buffer. *)
Definition at_end (b : string) : ostringstream.t :=
  ostringstream.mk b (String.length b) false.

(** A stream in good state whose put position is on the last character. *)
Definition on_last (b : string) (c : ascii) : ostringstream.t :=
  ostringstream.mk (b +:+ String c "") (String.length b) false.

(** The scalar invariants of a tile descriptor. *)
Definition scalar_invariants (part width height tilePosX tilePosY
                              tileWidth tileHeight imgSize : Z) : Prop :=
  0 <= part /\ 0 < width /\ 0 < height /\ 0 <= tilePosX /\ 0 <= tilePosY /\
  0 < tileWidth /\ 0 < tileHeight /\ 0 <= imgSize.

(** The geometry two tiles have to share to be adjacent. *)
Definition same_geometry (a b : TileDesc.t) : Prop :=
  TileDesc.getPart b = TileDesc.getPart a /\
  TileDesc.getWidth b = TileDesc.getWidth a /\
  TileDesc.getHeight b = TileDesc.getHeight a /\
  TileDesc.getTileWidth b = TileDesc.getTileWidth a /\
  TileDesc.getTileHeight b = TileDesc.getTileHeight a.

(** The inclusive overlap test of the box of [b] against the box of [a],
    as the spec writes it, on the integers: [x + w >= tilePosX],
    [x <= tilePosX + tileWidth], [y + h >= tilePosY] and
    [y <= tilePosY + tileHeight], where [x, y, w, h] is the box of [b].
    Boxes that only touch at an edge pass it. *)
Definition inclusive_overlap (a b : TileDesc.t) : Prop :=
  TileDesc.getTilePosX b + TileDesc.getTileWidth b >= TileDesc.getTilePosX a /\
  TileDesc.getTilePosX b <= TileDesc.getTilePosX a + TileDesc.getTileWidth a /\
  TileDesc.getTilePosY b + TileDesc.getTileHeight b >= TileDesc.getTilePosY a /\
  TileDesc.getTilePosY b <= TileDesc.getTilePosY a + TileDesc.getTileHeight a.

(** The right and the bottom edge of the tile are representable in [int]:
    the two sums [intersectsWithRect] takes of its fields do not overflow. *)
Definition edges_fit (d : TileDesc.t) : Prop :=
  is_int (TileDesc.getTilePosX d + TileDesc.getTileWidth d) /\
  is_int (TileDesc.getTilePosY d + TileDesc.getTileHeight d).

(** A valid tile whose right edge is one past the largest [int]. *)
Definition tile_at_int_max : TileDesc.t :=
  TileDesc.mk 0 1024 1024 2147483647 0 1 10 1 0 (-1) false 0 0.

(** A 256x256 tile of the row at [y]. *)
Definition tile256 (part width height x y ver imgSize id : Z) (broadcast : bool)
           (oldHash hash : Z) : TileDesc.t :=
  TileDesc.mk part width height x y 256 256 ver imgSize id broadcast oldHash hash.

(** A [name=value] token. *)
Definition kv (name value : string) : string := name +:+ "=" +:+ value.

(** The tokens [TileDesc::serialize] writes, in its order. *)
Definition TileDesc_tokens (d : TileDesc.t) : list string :=
  [ kv "part" (to_string (TileDesc._part d));
    kv "width" (to_string (TileDesc._width d));
    kv "height" (to_string (TileDesc._height d));
    kv "tileposx" (to_string (TileDesc._tilePosX d));
    kv "tileposy" (to_string (TileDesc._tilePosY d));
    kv "tilewidth" (to_string (TileDesc._tileWidth d));
    kv "tileheight" (to_string (TileDesc._tileHeight d));
    kv "oldhash" (to_string (TileDesc._oldHash d));
    kv "hash" (to_string (TileDesc._hash d));
    kv "ver" (to_string (TileDesc._ver d)) ] ++
  (if 0 <=? TileDesc._id d then [kv "id" (to_string (TileDesc._id d))] else []) ++
  (if 0 <? TileDesc._imgSize d
   then [kv "imgsize" (to_string (TileDesc._imgSize d))] else []) ++
  (if TileDesc._broadcast d then [kv "broadcast" "yes"] else []).

(** The types of the fields: ten [int]s and two [uint64_t]s. *)
Definition well_typed (d : TileDesc.t) : Prop :=
  is_int (TileDesc._part d) /\ is_int (TileDesc._width d) /\
  is_int (TileDesc._height d) /\ is_int (TileDesc._tilePosX d) /\
  is_int (TileDesc._tilePosY d) /\ is_int (TileDesc._tileWidth d) /\
  is_int (TileDesc._tileHeight d) /\ is_int (TileDesc._ver d) /\
  is_int (TileDesc._imgSize d) /\ is_int (TileDesc._id d) /\
  is_uint64 (TileDesc._oldHash d) /\ is_uint64 (TileDesc._hash d).

(** A valid descriptor: one that satisfies the invariants of the
    constructor. *)
Definition valid (d : TileDesc.t) : Prop :=
  scalar_invariants (TileDesc._part d) (TileDesc._width d) (TileDesc._height d)
                    (TileDesc._tilePosX d) (TileDesc._tilePosY d)
                    (TileDesc._tileWidth d) (TileDesc._tileHeight d)
                    (TileDesc._imgSize d).

(** The pairs the token loop has collected from the tokens of [d]. *)
Definition pairs_of (d : TileDesc.t) (m : gmap string Z) : gmap string Z :=
  let m := <["ver" := TileDesc._ver d]>
           (<["tileheight" := TileDesc._tileHeight d]>
           (<["tilewidth" := TileDesc._tileWidth d]>
           (<["tileposy" := TileDesc._tilePosY d]>
           (<["tileposx" := TileDesc._tilePosX d]>
           (<["height" := TileDesc._height d]>
           (<["width" := TileDesc._width d]>
           (<["part" := TileDesc._part d]> m))))))) in
  let m := if 0 <=? TileDesc._id d then <["id" := TileDesc._id d]> m else m in
  if 0 <? TileDesc._imgSize d then <["imgsize" := TileDesc._imgSize d]> m else m.

(** The tile of the spec's concrete scenario. *)
Definition scenario_tile : TileDesc.t :=
  TileDesc.mk 0 1024 1024 0 0 256 256 1 2048 5 false 0 0.

(** A valid descriptor whose id is below -1. *)
Definition tile_with_id_minus2 : TileDesc.t :=
  TileDesc.mk 0 1024 1024 0 0 256 256 1 0 (-2) false 0 0.

(** A token [parse] can make nothing of: it is not a [name=integer] pair
    and none of the specially handled keys reads it. *)
Definition unreadable (token : string) : Prop :=
  LOOLProtocol.parseNameIntegerPair token = None /\
  LOOLProtocol.getTokenUInt64 token "oldhash" = None /\
  LOOLProtocol.getTokenUInt64 token "hash" = None /\
  LOOLProtocol.getTokenString1 token "broadcast" = None.

(** The tokens of the spec's concrete scenario. *)
Definition scenario_tokens : list string :=
  [ "part=0"; "width=1024"; "height=1024"; "tileposx=0"; "tileposy=0";
    "tilewidth=256"; "tileheight=256"; "oldhash=0"; "hash=0"; "ver=1";
    "id=5"; "imgsize=2048" ].

(** The ways the source builds a batch. *)
Inductive constructed (b : TileCombined.t) : Prop :=
| by_constructor part width height xs ys tileWidth tileHeight vers imgs id ohs hs :
    TileCombined.TileCombined part width height xs ys tileWidth tileHeight
                              vers imgs id ohs hs = Ok b ->
    constructed b
| by_parse tokens :
    TileCombined.parse tokens = Ok b -> constructed b
| by_parse_message message :
    TileCombined.parse_message message = Ok b -> constructed b
| by_create tiles :
    TileCombined.create tiles = Ok b -> constructed b.

(** Two tiles of one row that share their geometry. *)
Definition tile_a : TileDesc.t :=
  TileDesc.mk 0 1024 1024 0 0 256 256 1 2048 5 true 7 9.
Definition tile_b : TileDesc.t :=
  TileDesc.mk 0 1024 1024 256 0 256 256 3 0 (-1) false 11 13.

(** A batch record with an id and a broadcast token, and the batch [parse]
    reads from it. *)
Definition batch_message : string :=
  "tilecombine part=0 width=1024 height=1024 tileposx=0,256 tileposy=0,0 tilewidth=256 tileheight=256 broadcast=yes id=7".
Definition batch_of_message : TileCombined.t :=
  TileCombined.mk
    [ TileDesc.mk 0 1024 1024 0 0 256 256 (-1) 0 7 false 0 0;
      TileDesc.mk 0 1024 1024 256 0 256 256 (-1) 0 7 false 0 0 ]
    0 1024 1024 256 256 7.

(** The batch [create] packs them into. *)
Definition batch_ab : TileCombined.t :=
  TileCombined.mk
    [ TileDesc.mk 0 1024 1024 0 0 256 256 1 0 (-1) false 7 9;
      TileDesc.mk 0 1024 1024 256 0 256 256 3 0 (-1) false 11 13 ]
    0 1024 1024 256 256 (-1).

(** The number of elements of a comma list. *)
Definition element_count (s : string) : nat :=
  StringTokenizer.count (StringTokenizer.tokens s ",").

(** The scalar invariants of a batch. *)
Definition batch_invariants (part width height tileWidth tileHeight : Z) : Prop :=
  0 <= part /\ 0 < width /\ 0 < height /\ 0 < tileWidth /\ 0 < tileHeight.

(** The numerals of one field of the tiles, in tile order. *)
Definition list_of (field : TileDesc.t -> Z) (tiles : list TileDesc.t) : list string :=
  List.map (fun tile => to_string (field tile)) tiles.

(** The tokens [TileCombined::serialize] writes, in its order. *)
Definition TileCombined_tokens (b : TileCombined.t) : list string :=
  [ kv "part" (to_string (TileCombined._part b));
    kv "width" (to_string (TileCombined._width b));
    kv "height" (to_string (TileCombined._height b));
    kv "tileposx" (join_with "," (list_of TileDesc.getTilePosX (TileCombined._tiles b)));
    kv "tileposy" (join_with "," (list_of TileDesc.getTilePosY (TileCombined._tiles b)));
    kv "imgsize" (join_with "," (list_of TileDesc.getImgSize (TileCombined._tiles b)));
    kv "tilewidth" (to_string (TileCombined._tileWidth b));
    kv "tileheight" (to_string (TileCombined._tileHeight b));
    kv "ver" (join_with "," (list_of TileDesc.getVersion (TileCombined._tiles b)));
    kv "oldhash" (join_with "," (list_of TileDesc.getOldHash (TileCombined._tiles b)));
    kv "hash" (join_with "," (list_of TileDesc.getHash (TileCombined._tiles b))) ] ++
  (if 0 <=? TileCombined._id b then [kv "id" (to_string (TileCombined._id b))] else []).

(** A tile the constructor's loop builds for a batch with these scalars. *)
Definition tile_of_batch (part width height tileWidth tileHeight id : Z)
           (t : TileDesc.t) : Prop :=
  TileDesc._part t = part /\ TileDesc._width t = width /\
  TileDesc._height t = height /\ TileDesc._tileWidth t = tileWidth /\
  TileDesc._tileHeight t = tileHeight /\ TileDesc._id t = id /\
  TileDesc._broadcast t = false /\ well_typed t /\ valid t.

(** The tile a batch holds for [t]: the geometry, position, version and
    hashes of [t], no image size, no id and no broadcast flag. *)
Definition repack (t : TileDesc.t) : TileDesc.t :=
  TileDesc.mk (TileDesc._part t) (TileDesc._width t) (TileDesc._height t)
              (TileDesc._tilePosX t) (TileDesc._tilePosY t)
              (TileDesc._tileWidth t) (TileDesc._tileHeight t)
              (TileDesc._ver t) 0 (-1) false
              (TileDesc._oldHash t) (TileDesc._hash t).

(** The tiles have one part, width, height, tileWidth and tileHeight. *)
Definition share_geometry (tiles : list TileDesc.t) : Prop :=
  Forall (fun a => Forall (same_geometry a) tiles) tiles.

(** The scalars of a batch are [int]s. *)
Definition batch_well_typed (b : TileCombined.t) : Prop :=
  is_int (TileCombined._part b) /\ is_int (TileCombined._width b) /\
  is_int (TileCombined._height b) /\ is_int (TileCombined._tileWidth b) /\
  is_int (TileCombined._tileHeight b) /\ is_int (TileCombined._id b).

(** The pairs the token loop has collected from the tokens of [b]. *)
Definition batch_pairs_of (b : TileCombined.t) (m : gmap string Z) : gmap string Z :=
  let m := <["tileheight" := TileCombined._tileHeight b]>
           (<["tilewidth" := TileCombined._tileWidth b]>
           (<["height" := TileCombined._height b]>
           (<["width" := TileCombined._width b]>
           (<["part" := TileCombined._part b]> m)))) in
  if 0 <=? TileCombined._id b then <["id" := TileCombined._id b]> m else m.

(** A batch the constructor can have built and [serialize] writes in
    full: tiles of the batch's geometry and id, and an id that is -1 when
    it is negative. *)
Definition batch_valid (b : TileCombined.t) : Prop :=
  batch_well_typed b /\
  batch_invariants (TileCombined._part b) (TileCombined._width b)
                   (TileCombined._height b) (TileCombined._tileWidth b)
                   (TileCombined._tileHeight b) /\
  -1 <= TileCombined._id b /\
  Forall (tile_of_batch (TileCombined._part b) (TileCombined._width b)
                        (TileCombined._height b) (TileCombined._tileWidth b)
                        (TileCombined._tileHeight b) (TileCombined._id b))
         (TileCombined._tiles b).

(** The nine fields [operator==] compares. *)
Definition same_identity (a b : TileDesc.t) : Prop :=
  TileDesc._part a = TileDesc._part b /\
  TileDesc._width a = TileDesc._width b /\
  TileDesc._height a = TileDesc._height b /\
  TileDesc._tilePosX a = TileDesc._tilePosX b /\
  TileDesc._tilePosY a = TileDesc._tilePosY b /\
  TileDesc._tileWidth a = TileDesc._tileWidth b /\
  TileDesc._tileHeight a = TileDesc._tileHeight b /\
  TileDesc._id a = TileDesc._id b /\
  TileDesc._broadcast a = TileDesc._broadcast b.

(** A prefix the parsers pass over: no whitespace and no ['=']. *)
Definition plain_prefix (prefix : string) : Prop :=
  string_all not_space prefix = true /\ string_all not_equals prefix = true.

(** The token reads as the integer pair of this name. *)
Definition names (token name : string) : Prop :=
  exists value, LOOLProtocol.parseNameIntegerPair token = Some (name, value).

(** No token of the list reads as the integer pair of this name. *)
Definition absent (name : string) (tokens : list string) : Prop :=
  Forall (fun token => ~ names token name) tokens.

(** The tokens [TileCombined::serialize] writes for a batch without
    tiles: each seek back lands on the ['='] of a list key, and the next
    write replaces it. *)
Definition empty_batch_tokens (b : TileCombined.t) : list string :=
  [ kv "part" (to_string (TileCombined._part b));
    kv "width" (to_string (TileCombined._width b));
    kv "height" (to_string (TileCombined._height b));
    "tileposx"; "tileposy"; "imgsize";
    kv "tilewidth" (to_string (TileCombined._tileWidth b));
    kv "tileheight" (to_string (TileCombined._tileHeight b));
    "ver"; "oldhash"; "hash" ] ++
  (if 0 <=? TileCombined._id b then [kv "id" (to_string (TileCombined._id b))] else []).

(** The tokens of a list are read, in order, as this field of the tiles. *)
Definition reads (convert : string -> option Z) (tokens : list string)
           (field : TileDesc.t -> Z) (tiles : list TileDesc.t) : Prop :=
  Forall2 (fun token tile => convert token = Some (field tile)) tokens tiles.

(** A small batch with an id and without tiles. *)
Definition batch_without_tiles : TileCombined.t :=
  TileCombined.mk [] 0 1024 1024 256 256 7.

(** The tile [create] builds for [t] in a batch whose first tile is
    [tile0]: the geometry of [tile0], the position, version and hashes of
    [t], no image size, no id and no broadcast flag. *)
Definition adopt (tile0 t : TileDesc.t) : TileDesc.t :=
  TileDesc.mk (TileDesc._part tile0) (TileDesc._width tile0) (TileDesc._height tile0)
              (TileDesc._tilePosX t) (TileDesc._tilePosY t)
              (TileDesc._tileWidth tile0) (TileDesc._tileHeight tile0)
              (TileDesc._ver t) 0 (-1) false
              (TileDesc._oldHash t) (TileDesc._hash t).

(** A tile of another part and another canvas than [tile_a]. *)
Definition tile_c : TileDesc.t :=
  TileDesc.mk 3 2048 512 512 256 128 128 4 100 9 true 15 17.

(** A token the batch parser can make nothing of: it has no ['='], or its
    name is none of the six list keys and its value is no integer. *)
Definition batch_unreadable (token : string) : Prop :=
  match LOOLProtocol.parseNameValuePair token with
  | None => True
  | Some (name, value) =>
      ~ In name ["tileposx"; "tileposy"; "imgsize"; "ver"; "oldhash"; "hash"] /\
      LOOLProtocol.stringToInteger value = None
  end.

(** The messages of the exceptions the constructor of a batch throws. *)
Definition batch_messages : list string :=
  [ "Invalid tilecombine descriptor.";
    "Invalid tilecombine descriptor. Unequal number of tiles in parameters.";
    "Invalid 'tileposx' in tilecombine descriptor.";
    "Invalid 'tileposy' in tilecombine descriptor.";
    "Invalid 'imgsize' in tilecombine descriptor.";
    "Invalid 'ver' in tilecombine descriptor.";
    "Invalid tile descriptor." ].

(** A [BadArgumentException] with one of these messages. *)
Definition bad_argument (e : exception) : Prop :=
  exists what, e = BadArgumentException what /\ In what batch_messages.

(** * Properties *)

(** ** Strings *)
Section strings.

Lemma app_empty_r (s : string) : s +:+ "" = s.
Proof. induction s as [|c s IH]; simpl; [done | by rewrite IH]. Qed.

Lemma app_assoc_s (a b c : string) : (a +:+ b) +:+ c = a +:+ b +:+ c.
Proof. induction a as [|x a IH]; simpl; [done | by rewrite IH]. Qed.

Lemma length_app_s (a b : string) :
  String.length (a +:+ b) = (String.length a + String.length b)%nat.
Proof. induction a as [|x a IH]; simpl; [done | by rewrite IH]. Qed.

Lemma string_all_app (p : ascii -> bool) (a b : string) :
  string_all p (a +:+ b) = string_all p a && string_all p b.
Proof.
  induction a as [|x a IH]; simpl; [done |].
  by rewrite IH, andb_assoc.
Qed.

Lemma string_all_impl (p q : ascii -> bool) (s : string) :
  (forall c, p c = true -> q c = true) ->
  string_all p s = true -> string_all q s = true.
Proof.
  intros Hpq. induction s as [|c s IH]; simpl; [done |].
  intros [Hc Hs]%andb_prop. rewrite (Hpq _ Hc). auto.
Qed.

Lemma substr0_app (b c : string) : substr0 (String.length b) (b +:+ c) = b.
Proof. induction b as [|x b IH]; simpl; [by destruct c | by rewrite IH]. Qed.

Lemma substr0_all (s : string) : substr0 (String.length s) s = s.
Proof. rewrite <- (app_empty_r s) at 2. apply substr0_app. Qed.

Lemma drop_chars_short (n : nat) (s : string) :
  (String.length s <= n)%nat -> drop_chars n s = "".
Proof.
  revert s. induction n as [|n IH]; intros [|c s]; simpl; try done; try lia.
  intros H. apply IH. lia.
Qed.

Lemma is_empty_true (s : string) : is_empty s = true <-> s = "".
Proof. by destruct s. Qed.

Lemma is_empty_app (a b : string) :
  is_empty (a +:+ b) = is_empty a && is_empty b.
Proof. by destruct a. Qed.

(** *** Splitting *)

Variable is_sep : ascii -> bool.

Lemma split_on_app (t rest : string) :
  no_separator is_sep t = true ->
  split_on is_sep (t +:+ rest) =
  (t +:+ hd "" (split_on is_sep rest)) :: tl (split_on is_sep rest).
Proof.
  unfold no_separator. induction t as [|c t IH]; simpl.
  - intros _. by destruct rest as [|c r]; simpl; [|destruct (is_sep c), (split_on is_sep r)].
  - intros [Hc Ht]%andb_prop. apply negb_true_iff in Hc. rewrite Hc.
    by rewrite (IH Ht).
Qed.

Lemma split_on_no_sep (t : string) :
  no_separator is_sep t = true -> split_on is_sep t = [t].
Proof.
  intros Ht. rewrite <- (app_empty_r t) at 1.
  rewrite (split_on_app _ _ Ht). simpl. by rewrite app_empty_r.
Qed.

Lemma split_on_app_sep (t : string) (c : ascii) (rest : string) :
  no_separator is_sep t = true -> is_sep c = true ->
  split_on is_sep (t +:+ String c rest) = t :: split_on is_sep rest.
Proof.
  intros Ht Hc. rewrite (split_on_app _ _ Ht). simpl. rewrite Hc. simpl.
  by rewrite app_empty_r.
Qed.

End strings.

(** ** Decimal numerals *)

Lemma numeral_char_not_space c : is_numeral_char c = true -> not_space c = true.
Proof. by destruct c as [[] [] [] [] [] [] [] []]. Qed.

Lemma numeral_char_not_comma c : is_numeral_char c = true -> not_comma c = true.
Proof. by destruct c as [[] [] [] [] [] [] [] []]. Qed.

Lemma numeral_char_not_equals c : is_numeral_char c = true -> not_equals c = true.
Proof. by destruct c as [[] [] [] [] [] [] [] []]. Qed.

Lemma comma_not_space c :
  StringTokenizer.is_separator "," c = true -> not_space c = true.
Proof. by destruct c as [[] [] [] [] [] [] [] []]. Qed.

Lemma string_of_uint_digits (d : uint) :
  string_all is_numeral_char (NilEmpty.string_of_uint d) = true.
Proof. induction d; simpl; auto. Qed.

Lemma to_uint_string (p : positive) :
  NilZero.string_of_uint (Pos.to_uint p) = NilEmpty.string_of_uint (Pos.to_uint p).
Proof.
  pose proof (Unsigned.to_uint_nonnil p) as H.
  by destruct (Pos.to_uint p).
Qed.

Lemma to_string_numeral (z : Z) : string_all is_numeral_char (to_string z) = true.
Proof.
  destruct z as [|p|p]; unfold to_string; simpl; [done | |];
    rewrite to_uint_string; apply string_of_uint_digits.
Qed.

Lemma to_string_nonempty (z : Z) : is_empty (to_string z) = false.
Proof.
  destruct z as [|p|p]; unfold to_string; simpl; try done.
  rewrite to_uint_string. pose proof (Unsigned.to_uint_nonnil p) as H.
  by destruct (Pos.to_uint p).
Qed.

Lemma to_string_not_space (z : Z) : string_all not_space (to_string z) = true.
Proof.
  eapply string_all_impl; [apply numeral_char_not_space | apply to_string_numeral].
Qed.

Lemma to_string_not_comma (z : Z) : string_all not_comma (to_string z) = true.
Proof.
  eapply string_all_impl; [apply numeral_char_not_comma | apply to_string_numeral].
Qed.

Lemma to_string_word (z : Z) : is_word (to_string z) = true.
Proof.
  unfold is_word. by rewrite to_string_nonempty, to_string_not_space.
Qed.

(** Reading back what [operator<<] wrote. *)
Lemma stringToInteger_to_string (z : Z) :
  is_int z -> LOOLProtocol.stringToInteger (to_string z) = Some z.
Proof.
  intros [Hlo Hhi]. unfold LOOLProtocol.stringToInteger, to_string.
  rewrite NilZero.isi.
  - rewrite DecimalZ.of_to.
    apply Z.leb_le in Hlo, Hhi. by rewrite Hlo, Hhi.
  - destruct z; simpl; try done. intros [= H].
    by apply (Unsigned.to_uint_nonnil p).
  - destruct z; simpl; try done. intros [= H].
    by apply (Unsigned.to_uint_nonnil p).
Qed.

Lemma stringToUInt64_to_string (z : Z) :
  is_uint64 z -> LOOLProtocol.stringToUInt64 (to_string z) = Some z.
Proof.
  intros [Hlo Hhi]. unfold LOOLProtocol.stringToUInt64, to_string.
  destruct z as [|p|p]; [done | | lia].
  simpl. rewrite NilZero.usu by apply Unsigned.to_uint_nonnil.
  change (Z.of_uint (Pos.to_uint p)) with (Z.of_int (Z.to_int (Z.pos p))).
  rewrite DecimalZ.of_to. apply Z.leb_le in Hhi. by rewrite Hhi.
Qed.

(** ** Trimming and tokenizing *)

Lemma trim_left_word (s : string) : string_all not_space s = true -> trim_left s = s.
Proof.
  destruct s as [|c s]; simpl; [done |].
  intros [Hc _]%andb_prop. apply negb_true_iff in Hc. by rewrite Hc.
Qed.

Lemma trim_right_word (s : string) : string_all not_space s = true -> trim_right s = s.
Proof.
  induction s as [|c s IH]; simpl; [done |].
  intros [Hc Hs]%andb_prop. apply negb_true_iff in Hc. rewrite (IH Hs), Hc.
  by destruct s.
Qed.

Lemma trim_word (s : string) : string_all not_space s = true -> trim s = s.
Proof. intros H. unfold trim. by rewrite (trim_left_word _ H), trim_right_word. Qed.

Lemma split_concat_tokens (l : list string) :
  Forall (fun t => is_word t = true) l ->
  split_on Ascii.is_space (concat_tokens l) = "" :: l.
Proof.
  induction 1 as [|t l Ht _ IH]; simpl; [done |].
  apply andb_prop in Ht as [_ Ht].
  rewrite split_on_app by exact Ht. rewrite IH. simpl. by rewrite app_empty_r.
Qed.

Lemma filter_words (l : list string) :
  Forall (fun t => is_word t = true) l ->
  List.filter (fun t => negb (is_empty t)) l = l.
Proof.
  induction 1 as [|t l Ht _ IH]; simpl; [done |].
  apply andb_prop in Ht as [-> _]. by rewrite IH.
Qed.

Lemma tokenize_concat_tokens (l : list string) :
  Forall (fun t => is_word t = true) l ->
  LOOLProtocol.tokenize (concat_tokens l) = l.
Proof.
  intros H. unfold LOOLProtocol.tokenize.
  rewrite (split_concat_tokens _ H). simpl. by apply filter_words.
Qed.

Lemma to_string_element (z : Z) : is_element (to_string z) = true.
Proof. unfold is_element. by rewrite to_string_word, to_string_not_comma. Qed.

Lemma split_concat_terminated (l : list string) :
  Forall (fun t => is_element t = true) l ->
  split_on (StringTokenizer.is_separator ",") (concat_terminated "," l) = l ++ [""].
Proof.
  induction 1 as [|t l Ht _ IH]; [done |].
  apply andb_prop in Ht as [_ Ht].
  change (concat_terminated "," (t :: l))
    with (t +:+ String "," (concat_terminated "," l)).
  rewrite split_on_app_sep by done. by rewrite IH.
Qed.

Lemma split_join_with (l : list string) :
  Forall (fun t => is_element t = true) l -> l <> [] ->
  split_on (StringTokenizer.is_separator ",") (join_with "," l) = l.
Proof.
  induction 1 as [|t l Ht Hl IH]; [done |]. intros _.
  apply andb_prop in Ht as [_ Ht].
  destruct l as [|u l].
  - simpl. by apply split_on_no_sep.
  - change (join_with "," (t :: u :: l))
      with (t +:+ String "," (join_with "," (u :: l))).
    rewrite split_on_app_sep by done. by rewrite IH.
Qed.

Lemma map_trim_elements (l : list string) :
  Forall (fun t => is_element t = true) l -> List.map trim l = l.
Proof.
  induction 1 as [|t l Ht _ IH]; simpl; [done |].
  apply andb_prop in Ht as [[_ Ht]%andb_prop _].
  by rewrite (trim_word _ Ht), IH.
Qed.

Lemma filter_elements (l : list string) :
  Forall (fun t => is_element t = true) l ->
  List.filter (fun t => negb (is_empty t)) l = l.
Proof.
  intros H. apply filter_words. eapply Forall_impl; [exact H |].
  by intros t [? _]%andb_prop.
Qed.

Lemma tokens_concat_terminated (l : list string) :
  Forall (fun t => is_element t = true) l ->
  StringTokenizer.tokens (concat_terminated "," l) "," = l.
Proof.
  intros H. unfold StringTokenizer.tokens.
  rewrite (split_concat_terminated _ H), List.map_app, List.filter_app.
  rewrite (map_trim_elements _ H), (filter_elements _ H). simpl.
  by rewrite app_nil_r.
Qed.

Lemma tokens_join_with (l : list string) :
  Forall (fun t => is_element t = true) l ->
  StringTokenizer.tokens (join_with "," l) "," = l.
Proof.
  intros H. destruct l as [|t l]; [done |].
  unfold StringTokenizer.tokens.
  rewrite (split_join_with _ H) by done.
  by rewrite (map_trim_elements _ H), (filter_elements _ H).
Qed.

Lemma tokens_empty : StringTokenizer.tokens "" "," = [].
Proof. reflexivity. Qed.

Lemma concat_terminated_join (sep : string) (l : list string) :
  l <> [] -> concat_terminated sep l = join_with sep l +:+ sep.
Proof.
  induction l as [|t l IH]; [done |]. intros _.
  destruct l as [|u l].
  - simpl. by rewrite app_empty_r.
  - change (concat_terminated sep (t :: u :: l))
      with (t +:+ sep +:+ concat_terminated sep (u :: l)).
    rewrite IH by done.
    change (join_with sep (t :: u :: l)) with (t +:+ sep +:+ join_with sep (u :: l)).
    by rewrite !app_assoc_s.
Qed.

(** ** The output stream *)

Lemma empty_at_end : ostringstream.empty = at_end "".
Proof. reflexivity. Qed.

Lemma overwrite_end (b s : string) :
  ostringstream.overwrite b (String.length b) s = b +:+ s.
Proof.
  induction b as [|x b IH]; simpl; [|by rewrite IH].
  rewrite drop_chars_short by (simpl; lia). apply app_empty_r.
Qed.

Lemma write_at_end (b s : string) : at_end b << s = at_end (b +:+ s).
Proof.
  unfold at_end, ostringstream.write. simpl.
  by rewrite overwrite_end, length_app_s.
Qed.

Lemma seekp_back (b : string) (c : ascii) :
  ostringstream.seekp_cur (at_end (b +:+ String c "")) (-1) = on_last b c.
Proof.
  unfold at_end, on_last, ostringstream.seekp_cur. simpl.
  rewrite length_app_s. simpl.
  replace (_ <? 0) with false by (symmetry; apply Z.ltb_ge; lia).
  replace (_ <? _) with false by (symmetry; apply Z.ltb_ge; lia).
  simpl. f_equal. lia.
Qed.

Lemma overwrite_last (b : string) (c : ascii) (s : string) :
  is_empty s = false ->
  ostringstream.overwrite (b +:+ String c "") (String.length b) s = b +:+ s.
Proof.
  intros Hs. induction b as [|x b IH]; simpl; [|by rewrite IH].
  destruct s as [|y s]; [done |]. simpl.
  replace (drop_chars (String.length s) "") with "" by by destruct (String.length s).
  by rewrite app_empty_r.
Qed.

Lemma write_on_last (b : string) (c : ascii) (s : string) :
  is_empty s = false -> on_last b c << s = at_end (b +:+ s).
Proof.
  intros Hs. unfold on_last, at_end, ostringstream.write. simpl.
  by rewrite overwrite_last, length_app_s.
Qed.

Lemma substr_on_last (b : string) (c : ascii) :
  substr_to (ostringstream.str (on_last b c)) (ostringstream.tellp (on_last b c)) = b.
Proof.
  unfold substr_to, on_last, ostringstream.tellp, ostringstream.str.
  cbn [ostringstream.buf ostringstream.pos ostringstream.failbit].
  destruct (Z.ltb_spec (Z.of_nat (String.length b)) 0); [lia |].
  rewrite Nat2Z.id. apply substr0_app.
Qed.

Lemma substr_at_end (b : string) :
  substr_to (ostringstream.str (at_end b)) (ostringstream.tellp (at_end b)) = b.
Proof.
  unfold substr_to, at_end, ostringstream.tellp, ostringstream.str.
  cbn [ostringstream.buf ostringstream.pos ostringstream.failbit].
  destruct (Z.ltb_spec (Z.of_nat (String.length b)) 0); [lia |].
  rewrite Nat2Z.id. apply substr0_all.
Qed.

(** ** The descriptor: construction and geometry *)

Lemma int_add_exact (a b : Z) : is_int (a + b) -> int_add a b = a + b.
Proof.
  unfold is_int, INT_MIN, INT_MAX, int_add, int_wrap. intros H.
  rewrite Z.mod_small by lia. lia.
Qed.

Lemma TileDesc_ok part width height tilePosX tilePosY tileWidth tileHeight
      ver imgSize id broadcast :
  scalar_invariants part width height tilePosX tilePosY tileWidth tileHeight imgSize ->
  TileDesc.TileDesc part width height tilePosX tilePosY tileWidth tileHeight
                    ver imgSize id broadcast =
  Ok (TileDesc.mk part width height tilePosX tilePosY tileWidth tileHeight
                  ver imgSize id broadcast 0 0).
Proof.
  intros (? & ? & ? & ? & ? & ? & ? & ?). unfold TileDesc.TileDesc.
  repeat match goal with
         | |- context [?a <? ?b] => destruct (Z.ltb_spec a b); [lia |]
         | |- context [?a <=? ?b] => destruct (Z.leb_spec a b); [lia |]
         end.
  reflexivity.
Qed.

Lemma TileDesc_throws part width height tilePosX tilePosY tileWidth tileHeight
      ver imgSize id broadcast :
  ~ scalar_invariants part width height tilePosX tilePosY tileWidth tileHeight imgSize ->
  TileDesc.TileDesc part width height tilePosX tilePosY tileWidth tileHeight
                    ver imgSize id broadcast =
  Throw (BadArgumentException "Invalid tile descriptor.").
Proof.
  intros H. unfold TileDesc.TileDesc.
  repeat match goal with
         | |- context [?a <? ?b] => destruct (Z.ltb_spec a b); [done |]
         | |- context [?a <=? ?b] => destruct (Z.leb_spec a b);
                                     [by rewrite ?orb_true_r |]
         end.
  exfalso. apply H. unfold scalar_invariants. lia.
Qed.

(** C2: the constructor throws the invalid-descriptor exception exactly when
    one of the scalar invariants is violated ([part < 0], [width <= 0],
    [height <= 0], [tilePosX < 0], [tilePosY < 0], [tileWidth <= 0],
    [tileHeight <= 0] or [imgSize < 0]), and exactly when they all hold it
    returns the descriptor with the given field values and both hashes 0. *)
Theorem TileDesc_constructor_validates
        (part width height tilePosX tilePosY tileWidth tileHeight
         ver imgSize id : Z) (broadcast : bool) :
  (TileDesc.TileDesc part width height tilePosX tilePosY tileWidth tileHeight
                     ver imgSize id broadcast =
   Throw (BadArgumentException "Invalid tile descriptor.")
   <-> (part < 0 \/ width <= 0 \/ height <= 0 \/ tilePosX < 0 \/ tilePosY < 0 \/
        tileWidth <= 0 \/ tileHeight <= 0 \/ imgSize < 0)) /\
  (TileDesc.TileDesc part width height tilePosX tilePosY tileWidth tileHeight
                     ver imgSize id broadcast =
   Ok (TileDesc.mk part width height tilePosX tilePosY tileWidth tileHeight
                   ver imgSize id broadcast 0 0)
   <-> (0 <= part /\ 0 < width /\ 0 < height /\ 0 <= tilePosX /\ 0 <= tilePosY /\
        0 < tileWidth /\ 0 < tileHeight /\ 0 <= imgSize)).
Proof.
  destruct (decide (scalar_invariants part width height tilePosX tilePosY
                                      tileWidth tileHeight imgSize)) as [Hinv | Hinv].
  - rewrite (TileDesc_ok _ _ _ _ _ _ _ ver _ id broadcast Hinv).
    unfold scalar_invariants in Hinv. split; split; try done. lia.
  - rewrite (TileDesc_throws _ _ _ _ _ _ _ ver _ id broadcast Hinv).
    unfold scalar_invariants in Hinv. split; split; try done. lia.
Qed.

(** C4: the intersection test is symmetric: [a.intersects(b)] and
    [b.intersects(a)] are the same boolean for every pair of descriptors. *)
Theorem intersects_symmetric (a b : TileDesc.t) :
  TileDesc.intersects a b = TileDesc.intersects b a.
Proof.
  unfold TileDesc.intersects, TileDesc.intersectsWithRect.
  rewrite !Z.geb_leb.
  destruct (_ <=? _), (_ <=? _), (_ <=? _), (_ <=? _); reflexivity.
Qed.

(** The four comparisons of [intersects], the sums taken on [int]. *)
Lemma intersects_iff (a b : TileDesc.t) :
  TileDesc.intersects a b = true <->
  int_add (TileDesc.getTilePosX b) (TileDesc.getTileWidth b) >= TileDesc.getTilePosX a /\
  TileDesc.getTilePosX b <= int_add (TileDesc.getTilePosX a) (TileDesc.getTileWidth a) /\
  int_add (TileDesc.getTilePosY b) (TileDesc.getTileHeight b) >= TileDesc.getTilePosY a /\
  TileDesc.getTilePosY b <= int_add (TileDesc.getTilePosY a) (TileDesc.getTileHeight a).
Proof.
  unfold TileDesc.intersects, TileDesc.intersectsWithRect.
  rewrite !andb_true_iff, !Z.geb_le, !Z.leb_le. lia.
Qed.

(** Without overflow, [intersects] is the inclusive test on the integers. *)
Lemma intersects_inclusive (a b : TileDesc.t) :
  edges_fit a -> edges_fit b ->
  (TileDesc.intersects a b = true <-> inclusive_overlap a b).
Proof.
  intros [Hax Hay] [Hbx Hby]. rewrite intersects_iff. unfold inclusive_overlap.
  by rewrite !int_add_exact.
Qed.

Lemma isAdjacent_iff (a b : TileDesc.t) :
  TileDesc.isAdjacent a b = true <->
  same_geometry a b /\ TileDesc.intersects a b = true.
Proof.
  unfold TileDesc.isAdjacent, same_geometry.
  destruct (Z.eqb_spec (TileDesc.getPart b) (TileDesc.getPart a));
    [|simpl; intuition congruence].
  destruct (Z.eqb_spec (TileDesc.getWidth b) (TileDesc.getWidth a));
    [|simpl; intuition congruence].
  destruct (Z.eqb_spec (TileDesc.getHeight b) (TileDesc.getHeight a));
    [|simpl; intuition congruence].
  destruct (Z.eqb_spec (TileDesc.getTileWidth b) (TileDesc.getTileWidth a));
    [|simpl; intuition congruence].
  destruct (Z.eqb_spec (TileDesc.getTileHeight b) (TileDesc.getTileHeight a));
    [|simpl; intuition congruence].
  simpl. intuition.
Qed.

Lemma edges_fit_tile256 part width height x y ver imgSize id broadcast oldHash hash :
  is_int (x + 256) -> is_int (y + 256) ->
  edges_fit (tile256 part width height x y ver imgSize id broadcast oldHash hash).
Proof. intros Hx Hy. by split. Qed.

(** C5, as amended: for two descriptors whose right and bottom edges
    ([tilePosX + tileWidth] and [tilePosY + tileHeight]) are representable
    in [int], [a.isAdjacent(b)] is true exactly when [b] has the part,
    width, height, tileWidth and tileHeight of [a] and the two boxes pass
    the inclusive overlap test on the integers (touching edges count); two
    256x256 tiles of one row whose bottom edge is representable are
    adjacent at [tilePosX = 0] and [tilePosX = 256], and not adjacent at
    [tilePosX = 0] and [tilePosX = 512]. *)
Theorem isAdjacent_inclusive :
  (forall a b : TileDesc.t,
      edges_fit a -> edges_fit b ->
      (TileDesc.isAdjacent a b = true <->
       same_geometry a b /\ inclusive_overlap a b)) /\
  (forall part width height y ver1 ver2 img1 img2 id1 id2 bc1 bc2 oh1 oh2 h1 h2,
      is_int (y + 256) ->
      TileDesc.isAdjacent
        (tile256 part width height 0 y ver1 img1 id1 bc1 oh1 h1)
        (tile256 part width height 256 y ver2 img2 id2 bc2 oh2 h2) = true /\
      TileDesc.isAdjacent
        (tile256 part width height 0 y ver1 img1 id1 bc1 oh1 h1)
        (tile256 part width height 512 y ver2 img2 id2 bc2 oh2 h2) = false).
Proof.
  assert (Hiff : forall a b : TileDesc.t,
             edges_fit a -> edges_fit b ->
             (TileDesc.isAdjacent a b = true <->
              same_geometry a b /\ inclusive_overlap a b)).
  { intros a b Ha Hb. by rewrite isAdjacent_iff, (intersects_inclusive a b Ha Hb). }
  split; [exact Hiff |].
  intros part width height y ver1 ver2 img1 img2 id1 id2 bc1 bc2 oh1 oh2 h1 h2 Hy.
  assert (H0 : is_int (0 + 256)) by (unfold is_int, INT_MIN, INT_MAX; lia).
  assert (H256 : is_int (256 + 256)) by (unfold is_int, INT_MIN, INT_MAX; lia).
  assert (H512 : is_int (512 + 256)) by (unfold is_int, INT_MIN, INT_MAX; lia).
  split.
  - apply Hiff; [by apply edges_fit_tile256 | by apply edges_fit_tile256 |].
    unfold same_geometry, inclusive_overlap, tile256. simpl. lia.
  - apply not_true_is_false. intros Hadj.
    apply Hiff in Hadj as [_ Hov];
      [|by apply edges_fit_tile256 | by apply edges_fit_tile256].
    unfold inclusive_overlap, tile256 in Hov. simpl in Hov. lia.
Qed.

Lemma tile_a_edges_fit : edges_fit tile_a.
Proof. unfold edges_fit, is_int, INT_MIN, INT_MAX. simpl. lia. Qed.

Lemma tile_b_edges_fit : edges_fit tile_b.
Proof. unfold edges_fit, is_int, INT_MIN, INT_MAX. simpl. lia. Qed.

Lemma isAdjacent_inclusive_witness :
  (TileDesc.isAdjacent tile_a tile_b = true <->
   same_geometry tile_a tile_b /\ inclusive_overlap tile_a tile_b) /\
  TileDesc.isAdjacent
    (tile256 0 1024 1024 0 0 1 0 (-1) false 0 0)
    (tile256 0 1024 1024 256 0 1 0 (-1) false 0 0) = true /\
  TileDesc.isAdjacent
    (tile256 0 1024 1024 0 0 1 0 (-1) false 0 0)
    (tile256 0 1024 1024 512 0 1 0 (-1) false 0 0) = false.
Proof.
  split.
  - apply (proj1 isAdjacent_inclusive tile_a tile_b).
    + exact tile_a_edges_fit.
    + exact tile_b_edges_fit.
  - apply (proj2 isAdjacent_inclusive 0 1024 1024 0 1 1 0 0 (-1) (-1)
                 false false 0 0 0 0).
    unfold is_int, INT_MIN, INT_MAX. lia.
Defined.

(** C5 as stated fails: [tile_at_int_max] is a valid descriptor, it shares
    its geometry with itself and its box passes the inclusive test against
    itself, but its right edge [tilePosX + tileWidth] is past the largest
    [int], the sum wraps to a negative number and [isAdjacent] answers
    false. *)
Lemma isAdjacent_wraps_past_int_max :
  valid tile_at_int_max /\ well_typed tile_at_int_max /\
  same_geometry tile_at_int_max tile_at_int_max /\
  inclusive_overlap tile_at_int_max tile_at_int_max /\
  TileDesc.isAdjacent tile_at_int_max tile_at_int_max = false.
Proof.
  split; [unfold valid, scalar_invariants; simpl; lia |].
  split; [unfold well_typed, is_int, is_uint64, INT_MIN, INT_MAX, UINT64_MAX;
          simpl; lia |].
  split; [by repeat split |].
  split; [unfold inclusive_overlap; simpl; lia |].
  reflexivity.
Qed.

(** ** The descriptor: the text record *)

Lemma TileDesc_serialize_tokens (prefix : string) (d : TileDesc.t) :
  TileDesc.serialize prefix d = prefix +:+ concat_tokens (TileDesc_tokens d).
Proof.
  unfold TileDesc.serialize, TileDesc_tokens, kv.
  rewrite empty_at_end, !write_at_end.
  destruct (0 <=? TileDesc._id d), (0 <? TileDesc._imgSize d),
    (TileDesc._broadcast d);
    rewrite ?write_at_end; unfold ostringstream.str, at_end;
    cbn [ostringstream.buf app concat_tokens];
    rewrite !app_assoc_s; cbn [String.append]; rewrite ?app_empty_r; reflexivity.
Qed.

Lemma kv_word (name value : string) :
  string_all not_space name = true -> string_all not_space value = true ->
  is_word (kv name value) = true.
Proof.
  intros Hn Hv. unfold is_word, kv.
  rewrite !string_all_app, Hn, Hv, !is_empty_app. simpl. by rewrite andb_false_r.
Qed.

Lemma parse_kv (name value : string) :
  string_all not_equals name = true ->
  LOOLProtocol.parseNameValuePair (kv name value) = Some (name, value).
Proof.
  unfold kv. induction name as [|c name IH]; simpl in *; [done |].
  intros [Hc Hn]%andb_prop. apply negb_true_iff in Hc.
  unfold not_equals in Hc. rewrite Hc. by rewrite (IH Hn).
Qed.

Lemma TileDesc_tokens_words (d : TileDesc.t) :
  Forall (fun t => is_word t = true) (TileDesc_tokens d).
Proof.
  unfold TileDesc_tokens.
  destruct (0 <=? TileDesc._id d), (0 <? TileDesc._imgSize d),
    (TileDesc._broadcast d); cbn [app];
    repeat (apply Forall_cons; split;
            [first [apply kv_word; [reflexivity | apply to_string_not_space]
                   | reflexivity] |]);
    apply Forall_nil; done.
Qed.

Section parse_token.

Variables (m : gmap string Z) (oldHash hash : Z).

Lemma parse_token_int (name : string) (v : Z) :
  string_all not_equals name = true ->
  String.eqb name "oldhash" = false -> String.eqb name "hash" = false ->
  is_int v ->
  TileDesc.parse_token (TileDesc.mkScan m oldHash hash) (kv name (to_string v)) =
  TileDesc.mkScan (<[name := v]> m) oldHash hash.
Proof.
  intros Hn Ho Hh Hv.
  unfold TileDesc.parse_token, LOOLProtocol.getTokenUInt64,
    LOOLProtocol.parseNameIntegerPair.
  by rewrite (parse_kv _ _ Hn), Ho, Hh, (stringToInteger_to_string _ Hv).
Qed.

Lemma parse_token_oldhash (v : Z) :
  is_uint64 v ->
  TileDesc.parse_token (TileDesc.mkScan m oldHash hash) (kv "oldhash" (to_string v)) =
  TileDesc.mkScan m v hash.
Proof.
  intros Hv. unfold TileDesc.parse_token, LOOLProtocol.getTokenUInt64.
  rewrite parse_kv by reflexivity.
  by rewrite String.eqb_refl, (stringToUInt64_to_string _ Hv).
Qed.

Lemma parse_token_hash (v : Z) :
  is_uint64 v ->
  TileDesc.parse_token (TileDesc.mkScan m oldHash hash) (kv "hash" (to_string v)) =
  TileDesc.mkScan m oldHash v.
Proof.
  intros Hv. unfold TileDesc.parse_token, LOOLProtocol.getTokenUInt64.
  rewrite parse_kv by reflexivity.
  change (String.eqb "hash" "oldhash") with false. cbv iota.
  by rewrite String.eqb_refl, (stringToUInt64_to_string _ Hv).
Qed.

Lemma parse_token_broadcast :
  TileDesc.parse_token (TileDesc.mkScan m oldHash hash) (kv "broadcast" "yes") =
  TileDesc.mkScan m oldHash hash.
Proof. reflexivity. Qed.

End parse_token.

Lemma getTokenString1_kv (name value key : string) :
  string_all not_equals name = true ->
  LOOLProtocol.getTokenString1 (kv name value) key =
  if String.eqb name key then Some value else None.
Proof.
  intros Hn. unfold LOOLProtocol.getTokenString1. by rewrite (parse_kv _ _ Hn).
Qed.

Lemma map_at_insert (m : gmap string Z) (k k' : string) (v : Z) :
  map_at (<[k := v]> m) k' = if String.eqb k k' then v else map_at m k'.
Proof.
  unfold map_at. destruct (String.eqb_spec k k') as [-> | Hne].
  - by rewrite lookup_insert_eq.
  - by rewrite lookup_insert_ne.
Qed.

Lemma map_at_empty (k : string) : map_at ∅ k = 0.
Proof. unfold map_at. by rewrite lookup_empty. Qed.

Arguments to_string : simpl never.

Ltac project_fields :=
  cbn [TileDesc._part TileDesc._width TileDesc._height TileDesc._tilePosX
       TileDesc._tilePosY TileDesc._tileWidth TileDesc._tileHeight TileDesc._ver
       TileDesc._imgSize TileDesc._id TileDesc._broadcast TileDesc._oldHash
       TileDesc._hash TileDesc.pairs TileDesc.oldHash TileDesc.hash] in *.

Lemma scan_TileDesc_tokens (d : TileDesc.t) (m : gmap string Z) (a b : Z) :
  well_typed d ->
  fold_left TileDesc.parse_token (TileDesc_tokens d) (TileDesc.mkScan m a b) =
  TileDesc.mkScan (pairs_of d m) (TileDesc._oldHash d) (TileDesc._hash d).
Proof.
  destruct d as [part width height x y tw th ver img id bc oh h].
  unfold well_typed, TileDesc_tokens, pairs_of. project_fields.
  intros (? & ? & ? & ? & ? & ? & ? & ? & ? & ? & ? & ?).
  destruct (0 <=? id), (0 <? img), bc; cbn [app fold_left];
    rewrite (parse_token_int _ _ _ "part"), (parse_token_int _ _ _ "width"),
      (parse_token_int _ _ _ "height"), (parse_token_int _ _ _ "tileposx"),
      (parse_token_int _ _ _ "tileposy"), (parse_token_int _ _ _ "tilewidth"),
      (parse_token_int _ _ _ "tileheight"), parse_token_oldhash, parse_token_hash,
      (parse_token_int _ _ _ "ver") by (assumption || reflexivity);
    rewrite ?(parse_token_int _ _ _ "id") by (assumption || reflexivity);
    rewrite ?(parse_token_int _ _ _ "imgsize") by (assumption || reflexivity);
    rewrite ?parse_token_broadcast;
    reflexivity.
Qed.

Lemma getTokenString_TileDesc_tokens (d : TileDesc.t) :
  LOOLProtocol.getTokenString (TileDesc_tokens d) "broadcast" =
  if TileDesc._broadcast d then Some "yes" else None.
Proof.
  unfold TileDesc_tokens.
  destruct (0 <=? TileDesc._id d), (0 <? TileDesc._imgSize d),
    (TileDesc._broadcast d); cbn [app LOOLProtocol.getTokenString];
    rewrite !getTokenString1_kv by reflexivity; reflexivity.
Qed.

Lemma TileDesc_parse_tokens (d : TileDesc.t) :
  well_typed d -> valid d -> -1 <= TileDesc._id d ->
  TileDesc.parse (TileDesc_tokens d) = Ok d.
Proof.
  intros Hty Hval Hid. unfold TileDesc.parse.
  rewrite (scan_TileDesc_tokens _ _ _ _ Hty), getTokenString_TileDesc_tokens.
  destruct d as [part width height x y tw th ver img id bc oh h].
  unfold valid, pairs_of in *. project_fields.
  pose proof Hval as (? & ? & ? & ? & ? & ? & ? & ?).
  destruct (Z.leb_spec 0 id), (Z.ltb_spec 0 img);
    rewrite !map_at_insert, ?map_at_empty; cbn [String.eqb Ascii.eqb Bool.eqb];
    try replace img with 0 in * by lia; try replace id with (-1) in * by lia;
    rewrite TileDesc_ok by assumption; by destruct bc.
Qed.

Lemma TileDesc_equal_refl (d : TileDesc.t) : TileDesc.equal d d = true.
Proof.
  unfold TileDesc.equal. rewrite !Z.eqb_refl. by destruct (TileDesc._broadcast d).
Qed.

(** C1, as amended: for every valid descriptor [d] whose id is at least -1,
    parsing [d.serialize()] (empty prefix) yields a descriptor equal to [d]
    on the identity fields, with the version, imgSize, id, broadcast,
    oldHash and hash of [d]. *)
Theorem TileDesc_roundtrip (d : TileDesc.t) :
  well_typed d -> valid d -> -1 <= TileDesc.getId d ->
  exists d',
    TileDesc.parse_message (TileDesc.serialize "" d) = Ok d' /\
    TileDesc.equal d' d = true /\
    TileDesc.getVersion d' = TileDesc.getVersion d /\
    TileDesc.getImgSize d' = TileDesc.getImgSize d /\
    TileDesc.getId d' = TileDesc.getId d /\
    TileDesc.getBroadcast d' = TileDesc.getBroadcast d /\
    TileDesc.getOldHash d' = TileDesc.getOldHash d /\
    TileDesc.getHash d' = TileDesc.getHash d.
Proof.
  intros Hty Hval Hid. exists d. split; [|by rewrite TileDesc_equal_refl].
  unfold TileDesc.parse_message.
  rewrite TileDesc_serialize_tokens. cbn [String.append].
  rewrite tokenize_concat_tokens by apply TileDesc_tokens_words.
  by apply TileDesc_parse_tokens.
Qed.

Lemma scenario_tile_well_typed : well_typed scenario_tile.
Proof.
  unfold well_typed, is_int, is_uint64, INT_MIN, INT_MAX, UINT64_MAX.
  simpl. lia.
Qed.

Lemma scenario_tile_valid : valid scenario_tile.
Proof. unfold valid, scalar_invariants. simpl. lia. Qed.

Lemma TileDesc_roundtrip_witness :
  exists d',
    TileDesc.parse_message (TileDesc.serialize "" scenario_tile) = Ok d' /\
    TileDesc.equal d' scenario_tile = true /\
    TileDesc.getVersion d' = 1 /\
    TileDesc.getImgSize d' = 2048 /\
    TileDesc.getId d' = 5 /\
    TileDesc.getBroadcast d' = false /\
    TileDesc.getOldHash d' = 0 /\
    TileDesc.getHash d' = 0.
Proof.
  apply (TileDesc_roundtrip scenario_tile).
  - exact scenario_tile_well_typed.
  - exact scenario_tile_valid.
  - simpl. lia.
Defined.

(** C1 as stated fails: the record of a valid descriptor with id -2 carries
    no id, and parsing it gives id -1, a descriptor that is not equal to the
    original. *)
Lemma TileDesc_roundtrip_loses_id :
  valid tile_with_id_minus2 /\ well_typed tile_with_id_minus2 /\
  exists d',
    TileDesc.parse_message (TileDesc.serialize "" tile_with_id_minus2) = Ok d' /\
    TileDesc.equal d' tile_with_id_minus2 = false /\
    TileDesc.getId d' = -1 /\
    TileDesc.getId tile_with_id_minus2 = -2.
Proof.
  split; [unfold valid, scalar_invariants; simpl; lia |].
  split; [unfold well_typed, is_int, is_uint64, INT_MIN, INT_MAX, UINT64_MAX;
          simpl; lia |].
  by eexists.
Qed.

(** ** The descriptor: tokens the parser cannot read *)

Lemma parse_token_unreadable (st : TileDesc.scan) (token : string) :
  unreadable token -> TileDesc.parse_token st token = st.
Proof.
  intros (Hint & Hold & Hhash & _). unfold TileDesc.parse_token.
  by rewrite Hold, Hhash, Hint.
Qed.

Lemma getTokenString_unreadable (before after : list string) (token name : string) :
  LOOLProtocol.getTokenString1 token name = None ->
  LOOLProtocol.getTokenString (before ++ token :: after) name =
  LOOLProtocol.getTokenString (before ++ after) name.
Proof.
  intros Htok. induction before as [|t before IH]; simpl.
  - by rewrite Htok.
  - by rewrite IH.
Qed.

Lemma TileDesc_parse_throws (tokens : list string) (e : exception) :
  TileDesc.parse tokens = Throw e ->
  e = BadArgumentException "Invalid tile descriptor.".
Proof.
  unfold TileDesc.parse, TileDesc.TileDesc.
  destruct (_ || _); simpl; congruence.
Qed.

(** C3, as amended: a token that is not a [name=integer] pair and that none
    of the specially handled keys (oldhash, hash, broadcast) reads is
    skipped: [parse] returns what it returns for the list without the
    token, and when it fails it fails with the constructor's
    invalid-descriptor exception. *)
Theorem TileDesc_parse_skips_unreadable (before after : list string) (token : string) :
  unreadable token ->
  TileDesc.parse (before ++ token :: after) = TileDesc.parse (before ++ after) /\
  (forall e, TileDesc.parse (before ++ token :: after) = Throw e ->
             e = BadArgumentException "Invalid tile descriptor.").
Proof.
  intros Htok. split; [|apply TileDesc_parse_throws].
  unfold TileDesc.parse.
  rewrite (getTokenString_unreadable before after token "broadcast")
    by apply Htok.
  rewrite !fold_left_app. cbn [fold_left].
  by rewrite (parse_token_unreadable _ _ Htok).
Qed.

Lemma unreadable_garbage : unreadable "garbage".
Proof. by repeat split. Qed.

Lemma TileDesc_parse_skips_unreadable_witness :
  TileDesc.parse (scenario_tokens ++ "garbage" :: []) =
  TileDesc.parse (scenario_tokens ++ []) /\
  (forall e, TileDesc.parse (scenario_tokens ++ "garbage" :: []) = Throw e ->
             e = BadArgumentException "Invalid tile descriptor.").
Proof.
  apply (TileDesc_parse_skips_unreadable scenario_tokens [] "garbage").
  exact unreadable_garbage.
Defined.

(** C3 as stated fails: a token list with the unreadable tokens ["garbage"]
    and ["colour=blue"] parses to a descriptor. *)
Lemma TileDesc_parse_accepts_unreadable :
  unreadable "garbage" /\ unreadable "colour=blue" /\
  TileDesc.parse (scenario_tokens ++ ["garbage"; "colour=blue"]) = Ok scenario_tile.
Proof. by repeat split. Qed.

(** ** The batch: the constructor *)

Section constructor_loop.

Variable tile_at : nat -> result TileDesc.t.

Lemma loop_throw (l : list nat) (e : exception) :
  fold_left (TileCombined.append_tile tile_at) l (Throw e) = Throw e.
Proof. induction l as [|i l IH]; simpl; [done | apply IH]. Qed.

Lemma loop_ok (l : list nat) (acc ts : list TileDesc.t) :
  Forall2 (fun i t => tile_at i = Ok t) l ts ->
  fold_left (TileCombined.append_tile tile_at) l (Ok acc) = Ok (acc ++ ts).
Proof.
  intros H. revert acc. induction H as [|i t l ts Hi _ IH]; intros acc; simpl.
  - by rewrite app_nil_r.
  - rewrite Hi. simpl. rewrite IH. by rewrite <- app_assoc.
Qed.

Lemma loop_ok_inv (l : list nat) (acc tiles : list TileDesc.t) :
  fold_left (TileCombined.append_tile tile_at) l (Ok acc) = Ok tiles ->
  exists ts, tiles = acc ++ ts /\ Forall2 (fun i t => tile_at i = Ok t) l ts.
Proof.
  revert acc. induction l as [|i l IH]; intros acc; simpl.
  - intros [= <-]. exists []. by rewrite app_nil_r.
  - destruct (tile_at i) as [t | e] eqn:Hi; simpl.
    + intros (ts & -> & Hts)%IH. exists (t :: ts). split.
      * by rewrite <- app_assoc.
      * by constructor.
    + by rewrite loop_throw.
Qed.

End constructor_loop.

Lemma tile_at_inv part width height tileWidth tileHeight id
      xtoks ytoks imgtoks vertoks ohtoks htoks (i : nat) (t : TileDesc.t) :
  TileCombined.tile_at part width height tileWidth tileHeight id
                       xtoks ytoks imgtoks vertoks ohtoks htoks i = Ok t ->
  TileDesc._part t = part /\ TileDesc._width t = width /\
  TileDesc._height t = height /\ TileDesc._tileWidth t = tileWidth /\
  TileDesc._tileHeight t = tileHeight /\
  TileDesc._id t = id /\ TileDesc._broadcast t = false /\
  (imgtoks = [] -> TileDesc._imgSize t = 0) /\
  (vertoks = [] -> TileDesc._ver t = -1) /\
  (ohtoks = [] -> TileDesc._oldHash t = 0) /\
  (htoks = [] -> TileDesc._hash t = 0).
Proof.
  unfold TileCombined.tile_at, TileCombined.optional_field, TileDesc.TileDesc.
  intros H.
  repeat match type of H with
         | mbind _ ?r = _ => destruct r eqn:?; simpl in H; [|discriminate]
         end.
  match goal with
  | Hc : (if ?c then _ else _) = Ok ?a |- _ =>
      destruct c; [discriminate | injection Hc as <-]
  end.
  injection H as <-. simpl.
  repeat split; intros ->; simpl in *; congruence.
Qed.

(** What a successful construction returns: the scalars it was given and
    one tile per position, each built by the loop body. *)
Lemma TileCombined_inv part width height xs ys tileWidth tileHeight
      vers imgs id ohs hs (b : TileCombined.t) :
  TileCombined.TileCombined part width height xs ys tileWidth tileHeight
                            vers imgs id ohs hs = Ok b ->
  exists tiles,
    b = TileCombined.mk tiles part width height tileWidth tileHeight id /\
    Forall2 (fun i t =>
               TileCombined.tile_at part width height tileWidth tileHeight id
                 (StringTokenizer.tokens xs ",") (StringTokenizer.tokens ys ",")
                 (StringTokenizer.tokens imgs ",") (StringTokenizer.tokens vers ",")
                 (StringTokenizer.tokens ohs ",") (StringTokenizer.tokens hs ",")
                 i = Ok t)
            (seq 0 (StringTokenizer.count (StringTokenizer.tokens xs ","))) tiles.
Proof.
  unfold TileCombined.TileCombined.
  destruct (_ || _); [discriminate |].
  destruct (_ || _); [discriminate |].
  match goal with
  | |- mbind _ ?r = _ -> _ => destruct r as [tiles | e] eqn:Hloop; simpl; [|discriminate]
  end.
  intros [= <-]. exists tiles. split; [done |].
  apply loop_ok_inv in Hloop as (ts & -> & Hts). exact Hts.
Qed.

Lemma constructed_inv (b : TileCombined.t) :
  constructed b ->
  exists part width height xs ys tileWidth tileHeight vers imgs id ohs hs,
    TileCombined.TileCombined part width height xs ys tileWidth tileHeight
                              vers imgs id ohs hs = Ok b.
Proof.
  intros [part width height xs ys tw th vers imgs id ohs hs H
         | tokens H | message H | tiles H].
  - by repeat eexists.
  - unfold TileCombined.parse in H. by repeat eexists.
  - unfold TileCombined.parse_message, TileCombined.parse in H. by repeat eexists.
  - destruct tiles as [|tile0 tiles]; [discriminate |].
    unfold TileCombined.create in H. by repeat eexists.
Qed.

Lemma constructed_tiles (b : TileCombined.t) :
  constructed b ->
  Forall (fun t =>
            TileDesc._part t = TileCombined._part b /\
            TileDesc._width t = TileCombined._width b /\
            TileDesc._height t = TileCombined._height b /\
            TileDesc._tileWidth t = TileCombined._tileWidth b /\
            TileDesc._tileHeight t = TileCombined._tileHeight b /\
            TileDesc._id t = TileCombined._id b /\
            TileDesc._broadcast t = false)
         (TileCombined._tiles b).
Proof.
  intros (part & width & height & xs & ys & tw & th & vers & imgs & id & ohs & hs & H)
         %constructed_inv.
  apply TileCombined_inv in H as (tiles & -> & Hts). simpl.
  induction Hts as [|i t l ts Hi _ IH]; constructor; [|exact IH].
  apply tile_at_inv in Hi. tauto.
Qed.

Lemma create_ab : TileCombined.create [tile_a; tile_b] = Ok batch_ab.
Proof. reflexivity. Qed.

(** C9: every descriptor of a batch built by the constructor, by [parse] or
    by [create] has the part, width, height, tileWidth and tileHeight of the
    batch. *)
Theorem batch_tiles_share_geometry (b : TileCombined.t) :
  constructed b ->
  Forall (fun t =>
            TileDesc.getPart t = TileCombined.getPart b /\
            TileDesc.getWidth t = TileCombined.getWidth b /\
            TileDesc.getHeight t = TileCombined.getHeight b /\
            TileDesc.getTileWidth t = TileCombined.getTileWidth b /\
            TileDesc.getTileHeight t = TileCombined.getTileHeight b)
         (TileCombined.getTiles b).
Proof.
  intros H. eapply Forall_impl; [exact (constructed_tiles b H) |].
  intros t Ht. cbv beta in Ht. tauto.
Qed.

Lemma batch_tiles_share_geometry_witness :
  Forall (fun t =>
            TileDesc.getPart t = TileCombined.getPart batch_ab /\
            TileDesc.getWidth t = TileCombined.getWidth batch_ab /\
            TileDesc.getHeight t = TileCombined.getHeight batch_ab /\
            TileDesc.getTileWidth t = TileCombined.getTileWidth batch_ab /\
            TileDesc.getTileHeight t = TileCombined.getTileHeight batch_ab)
         (TileCombined.getTiles batch_ab).
Proof.
  apply (batch_tiles_share_geometry batch_ab).
  apply (by_create batch_ab [tile_a; tile_b]). reflexivity.
Defined.

(** C10: every descriptor of a batch built by the constructor, by [parse]
    or by [create] has broadcast false and the id of the batch; no token of
    the batch grammar sets either of them for a single tile. *)
Theorem batch_tiles_id_and_broadcast (b : TileCombined.t) :
  constructed b ->
  Forall (fun t =>
            TileDesc.getBroadcast t = false /\
            TileDesc.getId t = TileCombined._id b)
         (TileCombined.getTiles b).
Proof.
  intros H. eapply Forall_impl; [exact (constructed_tiles b H) |].
  intros t Ht. cbv beta in Ht. unfold TileDesc.getBroadcast, TileDesc.getId. tauto.
Qed.

Lemma parse_batch_message :
  TileCombined.parse_message batch_message = Ok batch_of_message.
Proof. reflexivity. Qed.

Lemma batch_tiles_id_and_broadcast_witness :
  Forall (fun t =>
            TileDesc.getBroadcast t = false /\
            TileDesc.getId t = TileCombined._id batch_of_message)
         (TileCombined.getTiles batch_of_message).
Proof.
  apply (batch_tiles_id_and_broadcast batch_of_message).
  apply (by_parse_message batch_of_message batch_message).
  exact parse_batch_message.
Defined.

(** ** The batch: cardinalities and defaults *)

Lemma batch_scalars_ok part width height tileWidth tileHeight :
  batch_invariants part width height tileWidth tileHeight ->
  (part <? 0) || (width <=? 0) || (height <=? 0) ||
  (tileWidth <=? 0) || (tileHeight <=? 0) = false.
Proof.
  intros (? & ? & ? & ? & ?).
  repeat match goal with
         | |- context [?a <? ?b] => destruct (Z.ltb_spec a b); [lia |]
         | |- context [?a <=? ?b] => destruct (Z.leb_spec a b); [lia |]
         end.
  reflexivity.
Qed.

Lemma is_empty_false (s : string) : s <> "" -> is_empty s = false.
Proof. by destruct s. Qed.

Lemma TileCombined_unequal part width height xs ys tileWidth tileHeight
      vers imgs id ohs hs :
  batch_invariants part width height tileWidth tileHeight ->
  element_count xs <> element_count ys \/
  (imgs <> "" /\ element_count imgs <> element_count xs) \/
  (vers <> "" /\ element_count vers <> element_count xs) \/
  (ohs <> "" /\ element_count ohs <> element_count xs) \/
  (hs <> "" /\ element_count hs <> element_count xs) ->
  TileCombined.TileCombined part width height xs ys tileWidth tileHeight
                            vers imgs id ohs hs =
  Throw TileCombined.unequal_number.
Proof.
  intros Hinv Hne. unfold TileCombined.TileCombined, element_count in *.
  rewrite (batch_scalars_ok _ _ _ _ _ Hinv).
  match goal with
  | |- (if ?c then _ else _) = _ => assert (c = true) as ->; [|done]
  end.
  rewrite !orb_true_iff, !andb_true_iff, !negb_true_iff, !Nat.eqb_neq.
  destruct Hne as [H | [[H1 H2] | [[H1 H2] | [[H1 H2] | [H1 H2]]]]];
    try apply is_empty_false in H1; intuition.
Qed.

Lemma TileCombined_defaults part width height xs ys tileWidth tileHeight
      vers imgs id ohs hs (b : TileCombined.t) :
  TileCombined.TileCombined part width height xs ys tileWidth tileHeight
                            vers imgs id ohs hs = Ok b ->
  (imgs = "" -> Forall (fun t => TileDesc.getImgSize t = 0) (TileCombined.getTiles b)) /\
  (vers = "" -> Forall (fun t => TileDesc.getVersion t = -1) (TileCombined.getTiles b)) /\
  (ohs = "" -> Forall (fun t => TileDesc.getOldHash t = 0) (TileCombined.getTiles b)) /\
  (hs = "" -> Forall (fun t => TileDesc.getHash t = 0) (TileCombined.getTiles b)).
Proof.
  intros (tiles & -> & Hts)%TileCombined_inv.
  unfold TileCombined.getTiles. simpl.
  repeat split; intros ->; rewrite tokens_empty in Hts;
    (induction Hts as [|i t l ts Hi _ IH]; constructor; [|exact IH]);
    apply tile_at_inv in Hi; cbv beta; tauto.
Qed.

(** C6, as amended: when the scalar invariants of the batch hold, the
    construction throws the unequal-number exception whenever the tileposx and
    tileposy lists have different element counts, or one of the imgsize,
    ver, oldhash and hash lists is a non-empty string whose element count
    differs from the positions'; and in a batch that was constructed, an
    empty imgsize, ver, oldhash or hash list leaves every tile with the
    default of that field (imgSize 0, version -1, oldHash 0, hash 0). *)
Theorem TileCombined_cardinality part width height xs ys tileWidth tileHeight
        vers imgs id ohs hs :
  batch_invariants part width height tileWidth tileHeight ->
  (element_count xs <> element_count ys \/
   (imgs <> "" /\ element_count imgs <> element_count xs) \/
   (vers <> "" /\ element_count vers <> element_count xs) \/
   (ohs <> "" /\ element_count ohs <> element_count xs) \/
   (hs <> "" /\ element_count hs <> element_count xs) ->
   TileCombined.TileCombined part width height xs ys tileWidth tileHeight
                             vers imgs id ohs hs =
   Throw (BadArgumentException
            "Invalid tilecombine descriptor. Unequal number of tiles in parameters.")) /\
  (forall b,
      TileCombined.TileCombined part width height xs ys tileWidth tileHeight
                                vers imgs id ohs hs = Ok b ->
      (imgs = "" ->
       Forall (fun t => TileDesc.getImgSize t = 0) (TileCombined.getTiles b)) /\
      (vers = "" ->
       Forall (fun t => TileDesc.getVersion t = -1) (TileCombined.getTiles b)) /\
      (ohs = "" ->
       Forall (fun t => TileDesc.getOldHash t = 0) (TileCombined.getTiles b)) /\
      (hs = "" ->
       Forall (fun t => TileDesc.getHash t = 0) (TileCombined.getTiles b))).
Proof.
  intros Hinv. split.
  - by apply TileCombined_unequal.
  - intros b. apply TileCombined_defaults.
Qed.

Lemma batch_invariants_example : batch_invariants 0 1024 1024 256 256.
Proof. unfold batch_invariants. lia. Qed.

(** Three x positions against two y positions, and a batch without any of
    the optional lists. *)
Lemma TileCombined_cardinality_witness :
  TileCombined.TileCombined 0 1024 1024 "0,256,512" "0,0" 256 256 "" "" (-1) "" "" =
  Throw (BadArgumentException
           "Invalid tilecombine descriptor. Unequal number of tiles in parameters.") /\
  exists b,
    TileCombined.TileCombined 0 1024 1024 "0,256" "0,0" 256 256 "" "" (-1) "" "" = Ok b /\
    Forall (fun t => TileDesc.getImgSize t = 0) (TileCombined.getTiles b) /\
    Forall (fun t => TileDesc.getVersion t = -1) (TileCombined.getTiles b) /\
    Forall (fun t => TileDesc.getOldHash t = 0) (TileCombined.getTiles b) /\
    Forall (fun t => TileDesc.getHash t = 0) (TileCombined.getTiles b).
Proof.
  split.
  - apply (TileCombined_cardinality 0 1024 1024 "0,256,512" "0,0" 256 256
                                    "" "" (-1) "" "" batch_invariants_example).
    left. vm_compute. discriminate.
  - eexists. split; [reflexivity |].
    pose proof (proj2 (TileCombined_cardinality 0 1024 1024 "0,256" "0,0" 256 256
                         "" "" (-1) "" "" batch_invariants_example) _ eq_refl)
      as (H1 & H2 & H3 & H4).
    auto.
Defined.

(** C6 as stated fails: with three x positions against two y positions and
    a negative part, the construction throws the exception of the scalar
    invariants, not the unequal-number one. *)
Lemma TileCombined_scalars_checked_first :
  element_count "1,2,3" <> element_count "1,2" /\
  TileCombined.TileCombined (-1) 10 10 "1,2,3" "1,2" 10 10 "" "" 0 "" "" =
  Throw (BadArgumentException "Invalid tilecombine descriptor.") /\
  TileCombined.TileCombined (-1) 10 10 "1,2,3" "1,2" 10 10 "" "" 0 "" "" <>
  Throw (BadArgumentException
           "Invalid tilecombine descriptor. Unequal number of tiles in parameters.").
Proof. split; [vm_compute; discriminate | split; [reflexivity | discriminate]]. Qed.

(** ** The batch: the text record *)

Lemma list_of_elements (field : TileDesc.t -> Z) (tiles : list TileDesc.t) :
  Forall (fun t => is_element t = true) (list_of field tiles).
Proof.
  induction tiles as [|t tiles IH]; constructor; [apply to_string_element | exact IH].
Qed.

Lemma list_of_nonempty (field : TileDesc.t -> Z) (tiles : list TileDesc.t) :
  tiles <> [] -> list_of field tiles <> [].
Proof. by destruct tiles. Qed.

Lemma write_list_at_end (b : string) (field : TileDesc.t -> Z)
      (tiles : list TileDesc.t) :
  TileCombined.write_list (at_end b) field tiles =
  at_end (b +:+ concat_terminated "," (list_of field tiles)).
Proof.
  unfold TileCombined.write_list. revert b.
  induction tiles as [|t tiles IH]; intros b; simpl.
  - by rewrite app_empty_r.
  - rewrite !write_at_end, IH. by rewrite !app_assoc_s.
Qed.

(** A list loop, the seek back over its last comma and the next write: the
    comma is overwritten and the list is left joined. *)
Lemma write_list_seek_write (b : string) (field : TileDesc.t -> Z)
      (tiles : list TileDesc.t) (s : string) :
  tiles <> [] -> is_empty s = false ->
  ostringstream.seekp_cur (TileCombined.write_list (at_end b) field tiles) (-1) << s =
  at_end (b +:+ join_with "," (list_of field tiles) +:+ s).
Proof.
  intros Hne Hs. rewrite write_list_at_end.
  rewrite concat_terminated_join by by apply list_of_nonempty.
  rewrite <- app_assoc_s. rewrite seekp_back, write_on_last by done.
  by rewrite app_assoc_s.
Qed.

(** The same when nothing is written after the seek. *)
Lemma write_list_seek (b : string) (field : TileDesc.t -> Z)
      (tiles : list TileDesc.t) :
  tiles <> [] ->
  ostringstream.seekp_cur (TileCombined.write_list (at_end b) field tiles) (-1) =
  on_last (b +:+ join_with "," (list_of field tiles)) ",".
Proof.
  intros Hne. rewrite write_list_at_end.
  rewrite concat_terminated_join by by apply list_of_nonempty.
  rewrite <- app_assoc_s. by rewrite seekp_back.
Qed.

Lemma TileCombined_serialize_tokens (prefix : string) (b : TileCombined.t) :
  TileCombined._tiles b <> [] ->
  TileCombined.serialize prefix b = prefix +:+ concat_tokens (TileCombined_tokens b).
Proof.
  intros Hne. unfold TileCombined.serialize, TileCombined_tokens, kv.
  rewrite empty_at_end, !write_at_end.
  rewrite !(write_list_seek_write _ _ _ _ Hne), !write_at_end by done.
  rewrite !(write_list_seek_write _ _ _ _ Hne) by done.
  rewrite (write_list_seek _ _ _ Hne).
  destruct (0 <=? TileCombined._id b); cbv iota.
  - rewrite write_at_end, substr_at_end.
    cbn [app concat_tokens].
    rewrite !app_assoc_s; cbn [String.append]; rewrite ?app_empty_r.
    reflexivity.
  - rewrite substr_on_last. cbn [app concat_tokens].
    rewrite !app_assoc_s; cbn [String.append]; rewrite ?app_empty_r.
    reflexivity.
Qed.

(** C7: for a batch with at least one tile, each list field of the
    serialized record (tileposx, tileposy, imgsize, ver, oldhash, hash) is
    the numerals of that field, one per tile in tile order, with a comma
    strictly between them: the record is the text below, and cutting any of
    its lists at the commas gives back exactly one numeral per tile, with no
    empty fragment after a last comma. *)
Theorem TileCombined_serialize_joined (prefix : string) (b : TileCombined.t) :
  TileCombined.getTiles b <> [] ->
  TileCombined.serialize prefix b =
    prefix +:+
    " part=" +:+ to_string (TileCombined._part b) +:+
    " width=" +:+ to_string (TileCombined._width b) +:+
    " height=" +:+ to_string (TileCombined._height b) +:+
    " tileposx=" +:+
      join_with "," (list_of TileDesc.getTilePosX (TileCombined.getTiles b)) +:+
    " tileposy=" +:+
      join_with "," (list_of TileDesc.getTilePosY (TileCombined.getTiles b)) +:+
    " imgsize=" +:+
      join_with "," (list_of TileDesc.getImgSize (TileCombined.getTiles b)) +:+
    " tilewidth=" +:+ to_string (TileCombined._tileWidth b) +:+
    " tileheight=" +:+ to_string (TileCombined._tileHeight b) +:+
    " ver=" +:+
      join_with "," (list_of TileDesc.getVersion (TileCombined.getTiles b)) +:+
    " oldhash=" +:+
      join_with "," (list_of TileDesc.getOldHash (TileCombined.getTiles b)) +:+
    " hash=" +:+
      join_with "," (list_of TileDesc.getHash (TileCombined.getTiles b)) +:+
    (if 0 <=? TileCombined._id b
     then " id=" +:+ to_string (TileCombined._id b) else "") /\
  (forall field : TileDesc.t -> Z,
      split_on (StringTokenizer.is_separator ",")
               (join_with "," (list_of field (TileCombined.getTiles b))) =
      List.map (fun tile => to_string (field tile)) (TileCombined.getTiles b)).
Proof.
  unfold TileCombined.getTiles. intros Hne. split.
  - rewrite (TileCombined_serialize_tokens _ _ Hne).
    unfold TileCombined_tokens, kv.
    destruct (0 <=? TileCombined._id b); cbn [app concat_tokens];
      rewrite !app_assoc_s; cbn [String.append]; rewrite ?app_empty_r;
      reflexivity.
  - intros field. apply split_join_with.
    + apply list_of_elements.
    + by apply list_of_nonempty.
Qed.

Lemma TileCombined_serialize_joined_witness :
  TileCombined.serialize "tilecombine" batch_ab =
    "tilecombine part=0 width=1024 height=1024 tileposx=0,256 tileposy=0,0 imgsize=0,0 tilewidth=256 tileheight=256 ver=1,3 oldhash=7,11 hash=9,13" /\
  (forall field : TileDesc.t -> Z,
      split_on (StringTokenizer.is_separator ",")
               (join_with "," (list_of field (TileCombined.getTiles batch_ab))) =
      List.map (fun tile => to_string (field tile)) (TileCombined.getTiles batch_ab)).
Proof.
  apply (TileCombined_serialize_joined "tilecombine" batch_ab). discriminate.
Defined.

(** ** The batch: what the constructor accepts *)

Lemma at_list_of (field : TileDesc.t -> Z) (ts : list TileDesc.t) (i : nat)
      (t : TileDesc.t) :
  ts !! i = Some t ->
  StringTokenizer.at_ (list_of field ts) i = Ok (to_string (field t)).
Proof.
  intros H. unfold StringTokenizer.at_, list_of.
  change (List.map ?f ts) with (f <$> ts).
  by rewrite list_lookup_fmap, H.
Qed.

Lemma count_list_of (field : TileDesc.t -> Z) (ts : list TileDesc.t) :
  StringTokenizer.count (list_of field ts) = length ts.
Proof. unfold StringTokenizer.count, list_of. apply length_map. Qed.

Lemma optional_field_list_of (field : TileDesc.t -> Z) (ts : list TileDesc.t)
      (i : nat) (t : TileDesc.t) (convert : string -> option Z) (dflt : Z)
      (e : exception) :
  ts !! i = Some t ->
  convert (to_string (field t)) = Some (field t) ->
  TileCombined.optional_field (list_of field ts) i convert dflt e = Ok (field t).
Proof.
  intros Hi Hc. unfold TileCombined.optional_field.
  rewrite count_list_of, (at_list_of _ _ _ _ Hi).
  destruct ts as [|t0 ts]; [done |]. simpl. by rewrite Hc.
Qed.

Lemma tile_at_ok part width height tileWidth tileHeight id
      (ts : list TileDesc.t) (imgtoks : list string) (i : nat) (t : TileDesc.t) :
  tile_of_batch part width height tileWidth tileHeight id t ->
  ts !! i = Some t ->
  (imgtoks = [] /\ TileDesc._imgSize t = 0) \/
  imgtoks = list_of TileDesc.getImgSize ts ->
  TileCombined.tile_at part width height tileWidth tileHeight id
    (list_of TileDesc.getTilePosX ts) (list_of TileDesc.getTilePosY ts)
    imgtoks (list_of TileDesc.getVersion ts)
    (list_of TileDesc.getOldHash ts) (list_of TileDesc.getHash ts) i = Ok t.
Proof.
  intros (Hp & Hw & Hh & Htw & Hth & Hid & Hbc & Hty & Hval) Hi Himg.
  pose proof Hty as (? & ? & ? & ? & ? & ? & ? & ? & ? & ? & ? & ?).
  unfold TileCombined.tile_at.
  rewrite !(at_list_of _ _ _ _ Hi).
  rewrite !(optional_field_list_of _ _ _ _ _ _ _ Hi)
    by by apply stringToUInt64_to_string.
  unfold TileDesc.getTilePosX, TileDesc.getTilePosY, TileDesc.getVersion,
    TileDesc.getOldHash, TileDesc.getHash.
  repeat first [ progress cbn [mbind result_bind throw_unless]
               | rewrite stringToInteger_to_string by done ].
  assert (TileCombined.optional_field imgtoks i LOOLProtocol.stringToInteger 0
            (BadArgumentException "Invalid 'imgsize' in tilecombine descriptor.")
          = Ok (TileDesc._imgSize t)) as ->.
  { destruct Himg as [[-> Hz] | ->].
    - by rewrite Hz.
    - apply (optional_field_list_of TileDesc.getImgSize _ _ _ _ _ _ Hi).
      by apply stringToInteger_to_string. }
  rewrite count_list_of, to_string_nonempty.
  assert (Hlen : (length ts =? 0)%nat = false) by by destruct ts.
  rewrite Hlen. cbn [mbind result_bind].
  rewrite TileDesc_ok by (unfold valid in Hval; by subst).
  subst. destruct t. simpl in *. by subst.
Qed.

Lemma Forall2_seq_lookup {A : Type} (P : nat -> A -> Prop) (ts : list A) :
  (forall i t, ts !! i = Some t -> P i t) ->
  Forall2 P (seq 0 (length ts)) ts.
Proof.
  intros H. apply Forall2_same_length_lookup_2.
  - by rewrite length_seq.
  - intros i x t [-> _]%lookup_seq Ht. by apply H.
Qed.

Lemma TileCombined_ok part width height tileWidth tileHeight id
      (ts : list TileDesc.t) (xs ys vers imgs ohs hs : string) :
  batch_invariants part width height tileWidth tileHeight ->
  Forall (tile_of_batch part width height tileWidth tileHeight id) ts ->
  StringTokenizer.tokens xs "," = list_of TileDesc.getTilePosX ts ->
  StringTokenizer.tokens ys "," = list_of TileDesc.getTilePosY ts ->
  StringTokenizer.tokens vers "," = list_of TileDesc.getVersion ts ->
  (imgs = "" /\ Forall (fun t => TileDesc._imgSize t = 0) ts) \/
  StringTokenizer.tokens imgs "," = list_of TileDesc.getImgSize ts ->
  StringTokenizer.tokens ohs "," = list_of TileDesc.getOldHash ts ->
  StringTokenizer.tokens hs "," = list_of TileDesc.getHash ts ->
  TileCombined.TileCombined part width height xs ys tileWidth tileHeight
                            vers imgs id ohs hs =
  Ok (TileCombined.mk ts part width height tileWidth tileHeight id).
Proof.
  intros Hinv Hts Hxs Hys Hvers Himgs Hohs Hhs.
  unfold TileCombined.TileCombined.
  rewrite (batch_scalars_ok _ _ _ _ _ Hinv).
  rewrite Hxs, Hys, Hvers, Hohs, Hhs, !count_list_of, !Nat.eqb_refl.
  assert (Hcard : negb (is_empty imgs) &&
                  negb (length ts =? StringTokenizer.count
                                       (StringTokenizer.tokens imgs ","))%nat = false).
  { destruct Himgs as [[-> _] | ->]; [done |].
    by rewrite count_list_of, Nat.eqb_refl, andb_false_r. }
  rewrite Hcard. cbn [negb andb orb].
  rewrite !andb_false_r. cbn [orb].
  erewrite loop_ok; [reflexivity |].
  apply Forall2_seq_lookup. intros i t Hi.
  apply tile_at_ok; [|exact Hi|].
  - eapply Forall_lookup_1; [exact Hts | exact Hi].
  - destruct Himgs as [[-> Hz] | ->]; [left | by right].
    split; [done |]. eapply (Forall_lookup_1 _ _ _ _ Hz Hi).
Qed.

(** ** The batch: [create] *)

Lemma str_seekp_cur (o : ostringstream.t) (off : Z) :
  ostringstream.str (ostringstream.seekp_cur o off) = ostringstream.str o.
Proof.
  unfold ostringstream.seekp_cur.
  destruct (ostringstream.failbit o); [done |]. by destruct (_ || _).
Qed.

Lemma str_collect (field : TileDesc.t -> Z) (tiles : list TileDesc.t) :
  ostringstream.str (TileCombined.collect field tiles) =
  concat_terminated "," (list_of field tiles).
Proof.
  change (TileCombined.collect field tiles)
    with (TileCombined.write_list (at_end "") field tiles).
  by rewrite write_list_at_end.
Qed.

Lemma tokens_collect (field : TileDesc.t -> Z) (tiles : list TileDesc.t) :
  StringTokenizer.tokens (ostringstream.str (TileCombined.collect field tiles)) "," =
  list_of field tiles.
Proof. rewrite str_collect. apply tokens_concat_terminated, list_of_elements. Qed.

Lemma repack_of_batch (tile0 t : TileDesc.t) :
  same_geometry tile0 t -> well_typed t -> valid t ->
  tile_of_batch (TileDesc._part tile0) (TileDesc._width tile0)
                (TileDesc._height tile0) (TileDesc._tileWidth tile0)
                (TileDesc._tileHeight tile0) (-1) (repack t).
Proof.
  unfold same_geometry, TileDesc.getPart, TileDesc.getWidth, TileDesc.getHeight,
    TileDesc.getTileWidth, TileDesc.getTileHeight.
  intros (? & ? & ? & ? & ?) Hty Hval.
  unfold tile_of_batch, repack, well_typed, valid, scalar_invariants in *.
  simpl. unfold is_int, INT_MIN, INT_MAX in *. intuition lia.
Qed.

Lemma create_ok (tile0 : TileDesc.t) (rest : list TileDesc.t) :
  Forall well_typed (tile0 :: rest) -> Forall valid (tile0 :: rest) ->
  share_geometry (tile0 :: rest) ->
  TileCombined.create (tile0 :: rest) =
  Ok (TileCombined.mk (List.map repack (tile0 :: rest))
                      (TileDesc._part tile0) (TileDesc._width tile0)
                      (TileDesc._height tile0) (TileDesc._tileWidth tile0)
                      (TileDesc._tileHeight tile0) (-1)).
Proof.
  intros Hty Hval Hgeo. unfold TileCombined.create.
  set (tiles := tile0 :: rest) in *.
  apply TileCombined_ok.
  - apply Forall_inv in Hval. unfold valid, scalar_invariants in Hval.
    unfold batch_invariants, TileDesc.getPart, TileDesc.getWidth,
      TileDesc.getHeight, TileDesc.getTileWidth, TileDesc.getTileHeight. tauto.
  - apply Forall_inv in Hgeo.
    change (List.map repack tiles) with (repack <$> tiles).
    apply Forall_fmap. rewrite Forall_forall in *.
    intros t Ht. apply repack_of_batch; auto.
  - rewrite tokens_collect. unfold list_of. by rewrite List.map_map.
  - rewrite tokens_collect. unfold list_of. by rewrite List.map_map.
  - rewrite str_seekp_cur, tokens_collect. unfold list_of. by rewrite List.map_map.
  - left. split; [done |].
    change (List.map repack tiles) with (repack <$> tiles).
    apply Forall_fmap. by apply Forall_true.
  - rewrite tokens_collect. unfold list_of. by rewrite List.map_map.
  - rewrite tokens_collect. unfold list_of. by rewrite List.map_map.
Qed.

(** ** The batch: parsing its own record *)

Section batch_token.

Variables (m : gmap string Z) (x y i v o h : string).

Lemma batch_token_int (name : string) (z : Z) :
  string_all not_equals name = true ->
  String.eqb name "tileposx" = false -> String.eqb name "tileposy" = false ->
  String.eqb name "imgsize" = false -> String.eqb name "ver" = false ->
  String.eqb name "oldhash" = false -> String.eqb name "hash" = false ->
  is_int z ->
  TileCombined.parse_token (TileCombined.mkScan m x y i v o h)
                           (kv name (to_string z)) =
  TileCombined.mkScan (<[name := z]> m) x y i v o h.
Proof.
  intros Hn H1 H2 H3 H4 H5 H6 Hz. unfold TileCombined.parse_token.
  rewrite (parse_kv _ _ Hn), H1, H2, H3, H4, H5, H6.
  by rewrite (stringToInteger_to_string _ Hz).
Qed.

Lemma batch_token_tileposx (value : string) :
  TileCombined.parse_token (TileCombined.mkScan m x y i v o h) (kv "tileposx" value) =
  TileCombined.mkScan m value y i v o h.
Proof. unfold TileCombined.parse_token. by rewrite parse_kv. Qed.

Lemma batch_token_tileposy (value : string) :
  TileCombined.parse_token (TileCombined.mkScan m x y i v o h) (kv "tileposy" value) =
  TileCombined.mkScan m x value i v o h.
Proof. unfold TileCombined.parse_token. by rewrite parse_kv. Qed.

Lemma batch_token_imgsize (value : string) :
  TileCombined.parse_token (TileCombined.mkScan m x y i v o h) (kv "imgsize" value) =
  TileCombined.mkScan m x y value v o h.
Proof. unfold TileCombined.parse_token. by rewrite parse_kv. Qed.

Lemma batch_token_ver (value : string) :
  TileCombined.parse_token (TileCombined.mkScan m x y i v o h) (kv "ver" value) =
  TileCombined.mkScan m x y i value o h.
Proof. unfold TileCombined.parse_token. by rewrite parse_kv. Qed.

Lemma batch_token_oldhash (value : string) :
  TileCombined.parse_token (TileCombined.mkScan m x y i v o h) (kv "oldhash" value) =
  TileCombined.mkScan m x y i v value h.
Proof. unfold TileCombined.parse_token. by rewrite parse_kv. Qed.

Lemma batch_token_hash (value : string) :
  TileCombined.parse_token (TileCombined.mkScan m x y i v o h) (kv "hash" value) =
  TileCombined.mkScan m x y i v o value.
Proof. unfold TileCombined.parse_token. by rewrite parse_kv. Qed.

End batch_token.

Lemma join_list_of_not_space (field : TileDesc.t -> Z) (tiles : list TileDesc.t) :
  string_all not_space (join_with "," (list_of field tiles)) = true.
Proof.
  induction tiles as [|t tiles IH]; [done |].
  destruct tiles as [|u tiles].
  - apply to_string_not_space.
  - change (list_of field (t :: u :: tiles))
      with (to_string (field t) :: list_of field (u :: tiles)).
    change (join_with "," (to_string (field t) :: list_of field (u :: tiles)))
      with (to_string (field t) +:+ "," +:+ join_with "," (list_of field (u :: tiles))).
    rewrite !string_all_app, to_string_not_space, IH. reflexivity.
Qed.

Lemma TileCombined_tokens_words (b : TileCombined.t) :
  Forall (fun t => is_word t = true) (TileCombined_tokens b).
Proof.
  unfold TileCombined_tokens.
  destruct (0 <=? TileCombined._id b); cbn [app];
    repeat (apply Forall_cons; split;
            [apply kv_word;
             [reflexivity
             | first [apply to_string_not_space | apply join_list_of_not_space]] |]);
    by apply Forall_nil.
Qed.

Lemma scan_TileCombined_tokens (b : TileCombined.t) (m : gmap string Z)
      (x y i v o h : string) :
  batch_well_typed b ->
  fold_left TileCombined.parse_token (TileCombined_tokens b)
            (TileCombined.mkScan m x y i v o h) =
  TileCombined.mkScan
    (batch_pairs_of b m)
    (join_with "," (list_of TileDesc.getTilePosX (TileCombined._tiles b)))
    (join_with "," (list_of TileDesc.getTilePosY (TileCombined._tiles b)))
    (join_with "," (list_of TileDesc.getImgSize (TileCombined._tiles b)))
    (join_with "," (list_of TileDesc.getVersion (TileCombined._tiles b)))
    (join_with "," (list_of TileDesc.getOldHash (TileCombined._tiles b)))
    (join_with "," (list_of TileDesc.getHash (TileCombined._tiles b))).
Proof.
  intros (? & ? & ? & ? & ? & ?). unfold TileCombined_tokens, batch_pairs_of.
  destruct (0 <=? TileCombined._id b); cbn [app fold_left];
    rewrite (batch_token_int _ _ _ _ _ _ _ "part"),
      (batch_token_int _ _ _ _ _ _ _ "width"),
      (batch_token_int _ _ _ _ _ _ _ "height"),
      batch_token_tileposx, batch_token_tileposy, batch_token_imgsize,
      (batch_token_int _ _ _ _ _ _ _ "tilewidth"),
      (batch_token_int _ _ _ _ _ _ _ "tileheight"),
      batch_token_ver, batch_token_oldhash, batch_token_hash
      by (assumption || reflexivity);
    rewrite ?(batch_token_int _ _ _ _ _ _ _ "id") by (assumption || reflexivity);
    reflexivity.
Qed.

(** The batch round trip: parsing the record of a non-empty valid batch
    gives the batch back. *)
Lemma TileCombined_parse_serialize (b : TileCombined.t) :
  TileCombined._tiles b <> [] -> batch_valid b ->
  TileCombined.parse_message (TileCombined.serialize "" b) = Ok b.
Proof.
  intros Hne (Hty & Hinv & Hid & Hts). unfold TileCombined.parse_message.
  rewrite (TileCombined_serialize_tokens _ _ Hne). cbn [String.append].
  rewrite tokenize_concat_tokens by apply TileCombined_tokens_words.
  unfold TileCombined.parse.
  rewrite (scan_TileCombined_tokens _ _ _ _ _ _ _ _ Hty).
  cbn [TileCombined.pairs TileCombined.tilePositionsX TileCombined.tilePositionsY
       TileCombined.imgSizes TileCombined.versions TileCombined.oldhashes
       TileCombined.hashes].
  unfold batch_pairs_of.
  destruct b as [ts part width height tw th id]. simpl in *.
  assert (Hmid : (if 0 <=? id then id else -1) = id)
    by (destruct (Z.leb_spec 0 id); lia).
  destruct (0 <=? id) eqn:Hid0;
    rewrite !map_at_insert, ?map_at_empty; cbn [String.eqb Ascii.eqb Bool.eqb];
    rewrite ?Hmid;
    (apply TileCombined_ok;
     [ assumption | assumption
     | apply tokens_join_with, list_of_elements
     | apply tokens_join_with, list_of_elements
     | apply tokens_join_with, list_of_elements
     | right; apply tokens_join_with, list_of_elements
     | apply tokens_join_with, list_of_elements
     | apply tokens_join_with, list_of_elements ]).
Qed.

Lemma create_batch_valid (tile0 : TileDesc.t) (rest : list TileDesc.t) :
  Forall well_typed (tile0 :: rest) -> Forall valid (tile0 :: rest) ->
  share_geometry (tile0 :: rest) ->
  batch_valid (TileCombined.mk (List.map repack (tile0 :: rest))
                               (TileDesc._part tile0) (TileDesc._width tile0)
                               (TileDesc._height tile0) (TileDesc._tileWidth tile0)
                               (TileDesc._tileHeight tile0) (-1)).
Proof.
  intros Hty Hval Hgeo. unfold batch_valid, batch_well_typed. simpl.
  pose proof (Forall_inv Hty) as (? & ? & ? & ? & ? & ? & ? & ? & ? & ? & ? & ?).
  pose proof (Forall_inv Hval) as Hv0. unfold valid, scalar_invariants in Hv0.
  unfold batch_invariants.
  split_and!; try assumption; try (unfold is_int, INT_MIN, INT_MAX; lia);
    try tauto.
  apply Forall_inv in Hgeo.
  change (repack tile0 :: List.map repack rest) with (repack <$> tile0 :: rest).
  apply Forall_fmap. rewrite Forall_forall in *.
  intros t Ht. apply repack_of_batch; auto.
Qed.

Lemma equal_repack (d : TileDesc.t) :
  TileDesc.equal (repack d) d = true <->
  TileDesc.getId d = -1 /\ TileDesc.getBroadcast d = false.
Proof.
  unfold TileDesc.equal, repack, TileDesc.getId, TileDesc.getBroadcast.
  project_fields. rewrite !Z.eqb_refl. cbn [andb].
  destruct (Z.eqb_spec (-1) (TileDesc._id d)), (TileDesc._broadcast d);
    cbn [andb Bool.eqb]; split; try (intros [? ?]); try intros ?;
    try split; try done; try lia.
Qed.

(** C8, as amended: for every non-empty sequence of valid descriptors that
    share their geometry, [create] followed by [parse] of the serialized
    batch gives a batch with as many tiles, in the original order, each with
    the part, width, height, tilePosX, tilePosY, tileWidth, tileHeight,
    version, oldHash and hash of the corresponding input tile, and with id
    -1 and broadcast false: it is equal to the input tile on the identity
    fields exactly when the input tile has id -1 and no broadcast flag. *)
Theorem create_parse_roundtrip (tiles : list TileDesc.t) :
  tiles <> [] ->
  Forall well_typed tiles -> Forall valid tiles -> share_geometry tiles ->
  exists b b',
    TileCombined.create tiles = Ok b /\
    TileCombined.parse_message (TileCombined.serialize "" b) = Ok b' /\
    length (TileCombined.getTiles b') = length tiles /\
    Forall2 (fun d d' =>
               TileDesc.getPart d' = TileDesc.getPart d /\
               TileDesc.getWidth d' = TileDesc.getWidth d /\
               TileDesc.getHeight d' = TileDesc.getHeight d /\
               TileDesc.getTilePosX d' = TileDesc.getTilePosX d /\
               TileDesc.getTilePosY d' = TileDesc.getTilePosY d /\
               TileDesc.getTileWidth d' = TileDesc.getTileWidth d /\
               TileDesc.getTileHeight d' = TileDesc.getTileHeight d /\
               TileDesc.getVersion d' = TileDesc.getVersion d /\
               TileDesc.getOldHash d' = TileDesc.getOldHash d /\
               TileDesc.getHash d' = TileDesc.getHash d /\
               TileDesc.getId d' = -1 /\
               TileDesc.getBroadcast d' = false /\
               (TileDesc.equal d' d = true <->
                TileDesc.getId d = -1 /\ TileDesc.getBroadcast d = false))
            tiles (TileCombined.getTiles b').
Proof.
  intros Hne Hty Hval Hgeo. destruct tiles as [|tile0 rest]; [done |].
  eexists _, _. split; [by apply create_ok |].
  split.
  - apply TileCombined_parse_serialize; [done |]. by apply create_batch_valid.
  - unfold TileCombined.getTiles. cbn [TileCombined._tiles].
    split; [apply length_map |].
    change (List.map repack (tile0 :: rest)) with (repack <$> tile0 :: rest).
    apply Forall2_fmap_r, Forall_Forall2_diag, Forall_forall.
    intros d _. split_and!; try reflexivity. apply equal_repack.
Qed.

Lemma tiles_ab_well_typed : Forall well_typed [tile_a; tile_b].
Proof.
  repeat constructor;
    unfold is_int, is_uint64, INT_MIN, INT_MAX, UINT64_MAX; simpl; lia.
Qed.

Lemma tiles_ab_valid : Forall valid [tile_a; tile_b].
Proof. repeat constructor; simpl; lia. Qed.

Lemma tiles_ab_share_geometry : share_geometry [tile_a; tile_b].
Proof. repeat constructor. Qed.

Lemma create_parse_roundtrip_witness :
  exists b b',
    TileCombined.create [tile_a; tile_b] = Ok b /\
    TileCombined.parse_message (TileCombined.serialize "" b) = Ok b' /\
    length (TileCombined.getTiles b') = length [tile_a; tile_b] /\
    Forall2 (fun d d' =>
               TileDesc.getPart d' = TileDesc.getPart d /\
               TileDesc.getWidth d' = TileDesc.getWidth d /\
               TileDesc.getHeight d' = TileDesc.getHeight d /\
               TileDesc.getTilePosX d' = TileDesc.getTilePosX d /\
               TileDesc.getTilePosY d' = TileDesc.getTilePosY d /\
               TileDesc.getTileWidth d' = TileDesc.getTileWidth d /\
               TileDesc.getTileHeight d' = TileDesc.getTileHeight d /\
               TileDesc.getVersion d' = TileDesc.getVersion d /\
               TileDesc.getOldHash d' = TileDesc.getOldHash d /\
               TileDesc.getHash d' = TileDesc.getHash d /\
               TileDesc.getId d' = -1 /\
               TileDesc.getBroadcast d' = false /\
               (TileDesc.equal d' d = true <->
                TileDesc.getId d = -1 /\ TileDesc.getBroadcast d = false))
            [tile_a; tile_b] (TileCombined.getTiles b').
Proof.
  apply (create_parse_roundtrip [tile_a; tile_b]).
  - discriminate.
  - exact tiles_ab_well_typed.
  - exact tiles_ab_valid.
  - exact tiles_ab_share_geometry.
Defined.

(** C8 as stated fails: [tile_a] has id 5 and the broadcast flag; the tile
    that [create] and [parse] give for it has id -1 and no flag, and is not
    equal to [tile_a] on the identity fields. *)
Lemma create_parse_drops_id_and_broadcast :
  Forall well_typed [tile_a; tile_b] /\ Forall valid [tile_a; tile_b] /\
  share_geometry [tile_a; tile_b] /\
  TileCombined.create [tile_a; tile_b] = Ok batch_ab /\
  TileCombined.parse_message (TileCombined.serialize "" batch_ab) = Ok batch_ab /\
  exists d',
    TileCombined.getTiles batch_ab !! 0%nat = Some d' /\
    TileDesc.equal d' tile_a = false /\
    TileDesc.getId d' = -1 /\ TileDesc.getId tile_a = 5 /\
    TileDesc.getBroadcast d' = false /\ TileDesc.getBroadcast tile_a = true.
Proof.
  split; [exact tiles_ab_well_typed |].
  split; [exact tiles_ab_valid |].
  split; [exact tiles_ab_share_geometry |].
  split; [reflexivity |]. split; [reflexivity |].
  eexists. split; [reflexivity |]. by repeat split.
Qed.

(** * Further properties of the descriptor *)

(** ** Equality and the setters *)

Lemma equal_same_identity (a b : TileDesc.t) :
  TileDesc.equal a b = true <-> same_identity a b.
Proof.
  unfold TileDesc.equal, same_identity.
  rewrite !andb_true_iff, !Z.eqb_eq, Bool.eqb_true_iff. tauto.
Qed.

(** X1: [operator==] is an equivalence relation on descriptors: it is
    reflexive, symmetric and transitive. *)
Theorem TileDesc_equal_equivalence :
  (forall a, TileDesc.equal a a = true) /\
  (forall a b, TileDesc.equal a b = TileDesc.equal b a) /\
  (forall a b c,
      TileDesc.equal a b = true -> TileDesc.equal b c = true ->
      TileDesc.equal a c = true).
Proof.
  split; [exact TileDesc_equal_refl |]. split.
  - intros a b. apply eq_true_iff_eq. rewrite !equal_same_identity.
    unfold same_identity. intuition congruence.
  - intros a b c Hab%equal_same_identity Hbc%equal_same_identity.
    apply equal_same_identity. unfold same_identity in *. intuition congruence.
Qed.

Lemma TileDesc_equal_equivalence_witness :
  TileDesc.equal (TileDesc.setVersion scenario_tile 9) scenario_tile = true.
Proof.
  apply (proj2 (proj2 TileDesc_equal_equivalence)
               (TileDesc.setVersion scenario_tile 9)
               (TileDesc.setHash scenario_tile 77) scenario_tile);
    reflexivity.
Defined.

(** X2: the four setters leave a descriptor equal to itself under
    [operator==], whatever value they set: the version, the image size and
    the two hashes are no part of a tile's identity. *)
Theorem setters_keep_identity (d : TileDesc.t) (ver imgSize oldHash hash : Z) :
  TileDesc.equal (TileDesc.setVersion d ver) d = true /\
  TileDesc.equal (TileDesc.setImgSize d imgSize) d = true /\
  TileDesc.equal (TileDesc.setOldHash d oldHash) d = true /\
  TileDesc.equal (TileDesc.setHash d hash) d = true /\
  TileDesc.equal
    (TileDesc.setHash
       (TileDesc.setOldHash
          (TileDesc.setImgSize (TileDesc.setVersion d ver) imgSize) oldHash) hash)
    d = true.
Proof. split_and!; apply equal_same_identity; by repeat split. Qed.

(** X3: [setVersion], [setOldHash] and [setHash] keep the invariants of the
    constructor; [setImgSize] keeps them exactly when the new size is not
    negative, so it can leave a descriptor the constructor would reject. *)
Theorem setters_and_invariants (d : TileDesc.t) (ver imgSize oldHash hash : Z) :
  valid d ->
  valid (TileDesc.setVersion d ver) /\
  valid (TileDesc.setOldHash d oldHash) /\
  valid (TileDesc.setHash d hash) /\
  (valid (TileDesc.setImgSize d imgSize) <-> 0 <= imgSize).
Proof.
  unfold valid, scalar_invariants. destruct d; simpl. intuition.
Qed.

Lemma setters_and_invariants_witness :
  valid (TileDesc.setVersion scenario_tile 2) /\
  valid (TileDesc.setOldHash scenario_tile 3) /\
  valid (TileDesc.setHash scenario_tile 4) /\
  (valid (TileDesc.setImgSize scenario_tile (-1)) <-> 0 <= -1).
Proof.
  apply (setters_and_invariants scenario_tile 2 (-1) 3 4).
  exact scenario_tile_valid.
Defined.

(** ** Geometry *)

Lemma same_geometry_sym (a b : TileDesc.t) : same_geometry a b -> same_geometry b a.
Proof. unfold same_geometry. intuition. Qed.

(** X4: [isAdjacent] is symmetric: [a.isAdjacent(b)] and [b.isAdjacent(a)]
    are the same boolean. *)
Theorem isAdjacent_symmetric (a b : TileDesc.t) :
  TileDesc.isAdjacent a b = TileDesc.isAdjacent b a.
Proof.
  apply eq_true_iff_eq. rewrite !isAdjacent_iff, !intersects_iff.
  split; intros [Hg ?]; (split; [by apply same_geometry_sym | lia]).
Qed.

Lemma onSameRow_iff (a b : TileDesc.t) :
  TileDesc.onSameRow a b = true <->
  same_geometry a b /\
  int_add (TileDesc.getTilePosY b) (TileDesc.getTileHeight b) >= TileDesc.getTilePosY a /\
  TileDesc.getTilePosY b <= int_add (TileDesc.getTilePosY a) (TileDesc.getTileHeight a).
Proof.
  unfold TileDesc.onSameRow, same_geometry.
  destruct (Z.eqb_spec (TileDesc.getPart b) (TileDesc.getPart a));
    [|simpl; intuition congruence].
  destruct (Z.eqb_spec (TileDesc.getWidth b) (TileDesc.getWidth a));
    [|simpl; intuition congruence].
  destruct (Z.eqb_spec (TileDesc.getHeight b) (TileDesc.getHeight a));
    [|simpl; intuition congruence].
  destruct (Z.eqb_spec (TileDesc.getTileWidth b) (TileDesc.getTileWidth a));
    [|simpl; intuition congruence].
  destruct (Z.eqb_spec (TileDesc.getTileHeight b) (TileDesc.getTileHeight a));
    [|simpl; intuition congruence].
  cbn [negb orb]. rewrite andb_true_iff, Z.geb_le, Z.leb_le. intuition lia.
Qed.

(** X5: [onSameRow] is symmetric, and two adjacent tiles are on the same
    row. *)
Theorem onSameRow_symmetric_and_adjacent (a b : TileDesc.t) :
  TileDesc.onSameRow a b = TileDesc.onSameRow b a /\
  (TileDesc.isAdjacent a b = true -> TileDesc.onSameRow a b = true).
Proof.
  split.
  - apply eq_true_iff_eq. rewrite !onSameRow_iff.
    split; intros [Hg ?]; (split; [by apply same_geometry_sym | lia]).
  - rewrite isAdjacent_iff, intersects_iff, onSameRow_iff. tauto.
Qed.

Lemma onSameRow_symmetric_and_adjacent_witness :
  TileDesc.onSameRow tile_a tile_b = TileDesc.onSameRow tile_b tile_a /\
  TileDesc.onSameRow tile_a tile_b = true.
Proof.
  pose proof (onSameRow_symmetric_and_adjacent tile_a tile_b) as [Hsym Hadj].
  split; [exact Hsym | apply Hadj; reflexivity].
Defined.

(** X6: the geometry predicates do not tell apart descriptors that
    [operator==] holds equal: replacing both operands by equal ones changes
    none of [intersects], [isAdjacent] and [onSameRow]. *)
Theorem equal_respects_geometry (a a' b b' : TileDesc.t) :
  TileDesc.equal a a' = true -> TileDesc.equal b b' = true ->
  TileDesc.intersects a b = TileDesc.intersects a' b' /\
  TileDesc.isAdjacent a b = TileDesc.isAdjacent a' b' /\
  TileDesc.onSameRow a b = TileDesc.onSameRow a' b'.
Proof.
  intros Ha%equal_same_identity Hb%equal_same_identity.
  destruct Ha as (? & ? & ? & ? & ? & ? & ? & _).
  destruct Hb as (? & ? & ? & ? & ? & ? & ? & _).
  unfold TileDesc.isAdjacent, TileDesc.onSameRow, TileDesc.intersects,
    TileDesc.intersectsWithRect, TileDesc.getPart, TileDesc.getWidth,
    TileDesc.getHeight, TileDesc.getTilePosX, TileDesc.getTilePosY,
    TileDesc.getTileWidth, TileDesc.getTileHeight.
  by repeat match goal with H : TileDesc._part _ = _ |- _ => rewrite H; clear H
                       | H : TileDesc._width _ = _ |- _ => rewrite H; clear H
                       | H : TileDesc._height _ = _ |- _ => rewrite H; clear H
                       | H : TileDesc._tilePosX _ = _ |- _ => rewrite H; clear H
                       | H : TileDesc._tilePosY _ = _ |- _ => rewrite H; clear H
                       | H : TileDesc._tileWidth _ = _ |- _ => rewrite H; clear H
                       | H : TileDesc._tileHeight _ = _ |- _ => rewrite H; clear H
            end.
Qed.

Lemma equal_respects_geometry_witness :
  TileDesc.intersects tile_a tile_b =
  TileDesc.intersects (TileDesc.setVersion tile_a 8) (TileDesc.setHash tile_b 5) /\
  TileDesc.isAdjacent tile_a tile_b =
  TileDesc.isAdjacent (TileDesc.setVersion tile_a 8) (TileDesc.setHash tile_b 5) /\
  TileDesc.onSameRow tile_a tile_b =
  TileDesc.onSameRow (TileDesc.setVersion tile_a 8) (TileDesc.setHash tile_b 5).
Proof.
  apply (equal_respects_geometry tile_a (TileDesc.setVersion tile_a 8)
                                 tile_b (TileDesc.setHash tile_b 5));
    reflexivity.
Defined.

(** ** The text record with a prefix *)

Lemma tokenize_prefixed (prefix : string) (l : list string) :
  string_all not_space prefix = true ->
  Forall (fun t => is_word t = true) l ->
  LOOLProtocol.tokenize (prefix +:+ concat_tokens l) =
  if is_empty prefix then l else prefix :: l.
Proof.
  intros Hp Hl. unfold LOOLProtocol.tokenize.
  rewrite split_on_app by exact Hp.
  rewrite (split_concat_tokens _ Hl). cbn [hd tl List.filter].
  rewrite app_empty_r, (filter_words _ Hl). by destruct (is_empty prefix).
Qed.

Lemma parse_bare_word (s : string) :
  string_all not_equals s = true -> LOOLProtocol.parseNameValuePair s = None.
Proof.
  induction s as [|c s IH]; simpl; [done |].
  intros [Hc Hs]%andb_prop. apply negb_true_iff in Hc.
  unfold not_equals in Hc. by rewrite Hc, (IH Hs).
Qed.

Lemma unreadable_bare_word (s : string) :
  string_all not_equals s = true -> unreadable s.
Proof.
  intros H. unfold unreadable, LOOLProtocol.parseNameIntegerPair,
    LOOLProtocol.getTokenUInt64, LOOLProtocol.getTokenString1.
  by rewrite (parse_bare_word _ H).
Qed.

Lemma TileDesc_parse_cons_unreadable (token : string) (tokens : list string) :
  unreadable token -> TileDesc.parse (token :: tokens) = TileDesc.parse tokens.
Proof.
  intros Htok. unfold TileDesc.parse. cbn [fold_left LOOLProtocol.getTokenString].
  rewrite (parse_token_unreadable _ _ Htok).
  destruct Htok as (_ & _ & _ & ->). reflexivity.
Qed.

(** X7: [TileDesc::serialize] writes its prefix verbatim in front of the
    record it writes without one. *)
Theorem TileDesc_serialize_prefix (prefix : string) (d : TileDesc.t) :
  TileDesc.serialize prefix d = prefix +:+ TileDesc.serialize "" d.
Proof. by rewrite !TileDesc_serialize_tokens. Qed.

Lemma TileDesc_parse_serialize (prefix : string) (d : TileDesc.t) :
  plain_prefix prefix ->
  well_typed d -> valid d -> -1 <= TileDesc._id d ->
  TileDesc.parse_message (TileDesc.serialize prefix d) = Ok d.
Proof.
  intros [Hsp Heq] Hty Hval Hid. unfold TileDesc.parse_message.
  rewrite TileDesc_serialize_tokens.
  rewrite tokenize_prefixed by (exact Hsp || apply TileDesc_tokens_words).
  destruct (is_empty prefix).
  - by apply TileDesc_parse_tokens.
  - rewrite TileDesc_parse_cons_unreadable by by apply unreadable_bare_word.
    by apply TileDesc_parse_tokens.
Qed.

(** X8: the round trip of a descriptor survives a prefix: when the prefix
    has no whitespace and no ['='] (as in [tile: ...]), parsing
    [d.serialize(prefix)] gives back a valid descriptor [d] whose id is at
    least -1, field by field. *)
Theorem TileDesc_roundtrip_prefixed (prefix : string) (d : TileDesc.t) :
  plain_prefix prefix ->
  well_typed d -> valid d -> -1 <= TileDesc.getId d ->
  TileDesc.parse_message (TileDesc.serialize prefix d) = Ok d.
Proof. apply TileDesc_parse_serialize. Qed.

Lemma TileDesc_roundtrip_prefixed_witness :
  TileDesc.parse_message (TileDesc.serialize "tile:" scenario_tile) = Ok scenario_tile.
Proof.
  apply (TileDesc_roundtrip_prefixed "tile:" scenario_tile).
  - split; reflexivity.
  - exact scenario_tile_well_typed.
  - exact scenario_tile_valid.
  - simpl. lia.
Defined.

(** X9: the text record identifies the descriptor: two valid descriptors
    with ids of at least -1 that serialize to the same string are the same
    descriptor, in every field. *)
Theorem TileDesc_serialize_injective (d1 d2 : TileDesc.t) :
  well_typed d1 -> valid d1 -> -1 <= TileDesc.getId d1 ->
  well_typed d2 -> valid d2 -> -1 <= TileDesc.getId d2 ->
  TileDesc.serialize "" d1 = TileDesc.serialize "" d2 -> d1 = d2.
Proof.
  intros Hty1 Hval1 Hid1 Hty2 Hval2 Hid2 Heq.
  assert (H1 : TileDesc.parse_message (TileDesc.serialize "" d1) = Ok d1)
    by (apply TileDesc_parse_serialize; [by split | done ..]).
  assert (H2 : TileDesc.parse_message (TileDesc.serialize "" d2) = Ok d2)
    by (apply TileDesc_parse_serialize; [by split | done ..]).
  rewrite Heq, H2 in H1. congruence.
Qed.

Lemma TileDesc_serialize_injective_witness :
  TileDesc.setVersion (TileDesc.setVersion scenario_tile 4) 1 = scenario_tile.
Proof.
  apply (TileDesc_serialize_injective
           (TileDesc.setVersion (TileDesc.setVersion scenario_tile 4) 1)
           scenario_tile);
    try exact scenario_tile_well_typed; try exact scenario_tile_valid;
    try (simpl; lia); reflexivity.
Defined.

(** ** Fields a token list leaves out *)

Lemma parse_token_absent (st : TileDesc.scan) (token name : string) :
  ~ names token name ->
  TileDesc.pairs (TileDesc.parse_token st token) !! name = TileDesc.pairs st !! name.
Proof.
  intros Hno. unfold TileDesc.parse_token.
  destruct (LOOLProtocol.getTokenUInt64 token "oldhash"); [done |].
  destruct (LOOLProtocol.getTokenUInt64 token "hash"); [done |].
  destruct (LOOLProtocol.parseNameIntegerPair token) as [[n v]|] eqn:Hp; [|done].
  simpl. apply lookup_insert_ne. intros ->. apply Hno. by exists v.
Qed.

Lemma scan_absent (tokens : list string) (st : TileDesc.scan) (name : string) :
  absent name tokens ->
  TileDesc.pairs (fold_left TileDesc.parse_token tokens st) !! name =
  TileDesc.pairs st !! name.
Proof.
  intros H. revert st. induction H as [|t tokens Ht _ IH]; intros st; simpl.
  - done.
  - by rewrite IH, parse_token_absent.
Qed.

Lemma map_at_absent (tokens : list string) (st : TileDesc.scan) (name : string) :
  absent name tokens ->
  map_at (TileDesc.pairs (fold_left TileDesc.parse_token tokens st)) name =
  map_at (TileDesc.pairs st) name.
Proof. intros H. unfold map_at. by rewrite scan_absent. Qed.

(** X10: a token list in which no token reads as the width (or the height,
    the tilewidth, the tileheight) makes [parse] throw the
    invalid-descriptor exception: the missing field reads as 0 and the
    constructor rejects it. *)
Theorem TileDesc_parse_missing_extent (tokens : list string) (name : string) :
  name = "width" \/ name = "height" \/ name = "tilewidth" \/ name = "tileheight" ->
  absent name tokens ->
  TileDesc.parse tokens = Throw (BadArgumentException "Invalid tile descriptor.").
Proof.
  intros Hname Habs. unfold TileDesc.parse.
  destruct Hname as [-> | [-> | [-> | ->]]];
    rewrite (map_at_absent _ _ _ Habs); cbn [TileDesc.pairs];
    rewrite !map_at_insert, map_at_empty; cbn [String.eqb Ascii.eqb Bool.eqb];
    unfold TileDesc.TileDesc; cbn [Z.leb Z.compare];
    rewrite ?orb_true_r; reflexivity.
Qed.

Lemma TileDesc_parse_missing_extent_witness :
  TileDesc.parse ["part=0"; "width=1024"; "tileposx=0"; "tileposy=0";
                  "tilewidth=256"; "tileheight=256"; "height"; "heigth=1024"] =
  Throw (BadArgumentException "Invalid tile descriptor.").
Proof.
  apply (TileDesc_parse_missing_extent _ "height"); [tauto |].
  repeat constructor; intros [v Hv]; discriminate.
Defined.

Lemma scan_no_oldhash (tokens : list string) (st : TileDesc.scan) :
  Forall (fun t => LOOLProtocol.getTokenUInt64 t "oldhash" = None) tokens ->
  TileDesc.oldHash (fold_left TileDesc.parse_token tokens st) = TileDesc.oldHash st.
Proof.
  intros H. revert st. induction H as [|t tokens Ht _ IH]; intros st; simpl; [done |].
  rewrite IH. unfold TileDesc.parse_token. rewrite Ht.
  destruct (LOOLProtocol.getTokenUInt64 t "hash"); [done |].
  by destruct (LOOLProtocol.parseNameIntegerPair t) as [[n v]|].
Qed.

Lemma scan_no_hash (tokens : list string) (st : TileDesc.scan) :
  Forall (fun t => LOOLProtocol.getTokenUInt64 t "hash" = None) tokens ->
  TileDesc.hash (fold_left TileDesc.parse_token tokens st) = TileDesc.hash st.
Proof.
  intros H. revert st. induction H as [|t tokens Ht _ IH]; intros st; simpl; [done |].
  rewrite IH. unfold TileDesc.parse_token. rewrite Ht.
  destruct (LOOLProtocol.getTokenUInt64 t "oldhash"); [done |].
  by destruct (LOOLProtocol.parseNameIntegerPair t) as [[n v]|].
Qed.

Lemma TileDesc_inv part width height tilePosX tilePosY tileWidth tileHeight
      ver imgSize id broadcast (t : TileDesc.t) :
  TileDesc.TileDesc part width height tilePosX tilePosY tileWidth tileHeight
                    ver imgSize id broadcast = Ok t ->
  scalar_invariants part width height tilePosX tilePosY tileWidth tileHeight imgSize /\
  t = TileDesc.mk part width height tilePosX tilePosY tileWidth tileHeight
                  ver imgSize id broadcast 0 0.
Proof.
  destruct (decide (scalar_invariants part width height tilePosX tilePosY
                                      tileWidth tileHeight imgSize)) as [Hinv | Hinv].
  - rewrite (TileDesc_ok _ _ _ _ _ _ _ ver _ id broadcast Hinv). by intros [= <-].
  - by rewrite (TileDesc_throws _ _ _ _ _ _ _ ver _ id broadcast Hinv).
Qed.

(** What a successful [parse] returns, in terms of the state of its token
    loop. *)
Lemma TileDesc_parse_inv (tokens : list string) (d : TileDesc.t) :
  TileDesc.parse tokens = Ok d ->
  let st := fold_left TileDesc.parse_token tokens
              (TileDesc.mkScan (<["id" := -1]> (<["imgsize" := 0]> (<["ver" := -1]> ∅)))
                               0 0) in
  valid d /\
  TileDesc._part d = map_at (TileDesc.pairs st) "part" /\
  TileDesc._tilePosX d = map_at (TileDesc.pairs st) "tileposx" /\
  TileDesc._tilePosY d = map_at (TileDesc.pairs st) "tileposy" /\
  TileDesc._ver d = map_at (TileDesc.pairs st) "ver" /\
  TileDesc._imgSize d = map_at (TileDesc.pairs st) "imgsize" /\
  TileDesc._id d = map_at (TileDesc.pairs st) "id" /\
  TileDesc._oldHash d = TileDesc.oldHash st /\
  TileDesc._hash d = TileDesc.hash st /\
  TileDesc._broadcast d =
    match LOOLProtocol.getTokenString tokens "broadcast" with
    | Some s => String.eqb s "yes"
    | None => false
    end.
Proof.
  unfold TileDesc.parse. intros H. cbv zeta.
  match type of H with
  | mbind _ ?r = _ => destruct r as [t | e] eqn:Hctor; simpl in H; [|discriminate]
  end.
  injection H as <-.
  apply TileDesc_inv in Hctor as [Hinv ->].
  unfold valid. by split_and!.
Qed.

(** X11: every descriptor [parse] returns satisfies the invariants of the
    constructor, and the fields no token reads take their defaults: part,
    tileposx and tileposy 0, ver -1, imgsize 0, id -1, both hashes 0 and
    broadcast false. *)
Theorem TileDesc_parse_defaults (tokens : list string) (d : TileDesc.t) :
  TileDesc.parse tokens = Ok d ->
  valid d /\
  (absent "part" tokens -> TileDesc.getPart d = 0) /\
  (absent "tileposx" tokens -> TileDesc.getTilePosX d = 0) /\
  (absent "tileposy" tokens -> TileDesc.getTilePosY d = 0) /\
  (absent "ver" tokens -> TileDesc.getVersion d = -1) /\
  (absent "imgsize" tokens -> TileDesc.getImgSize d = 0) /\
  (absent "id" tokens -> TileDesc.getId d = -1) /\
  (Forall (fun t => LOOLProtocol.getTokenUInt64 t "oldhash" = None) tokens ->
   TileDesc.getOldHash d = 0) /\
  (Forall (fun t => LOOLProtocol.getTokenUInt64 t "hash" = None) tokens ->
   TileDesc.getHash d = 0) /\
  (LOOLProtocol.getTokenString tokens "broadcast" = None ->
   TileDesc.getBroadcast d = false).
Proof.
  intros H. apply TileDesc_parse_inv in H. cbv zeta in H.
  destruct H as (Hval & Hp & Hx & Hy & Hv & Hi & Hid & Hoh & Hh & Hb).
  unfold TileDesc.getPart, TileDesc.getTilePosX, TileDesc.getTilePosY,
    TileDesc.getVersion, TileDesc.getImgSize, TileDesc.getId,
    TileDesc.getOldHash, TileDesc.getHash, TileDesc.getBroadcast.
  split_and!; try done.
  - intros Ha. by rewrite Hp, (map_at_absent _ _ _ Ha).
  - intros Ha. by rewrite Hx, (map_at_absent _ _ _ Ha).
  - intros Ha. by rewrite Hy, (map_at_absent _ _ _ Ha).
  - intros Ha. by rewrite Hv, (map_at_absent _ _ _ Ha).
  - intros Ha. by rewrite Hi, (map_at_absent _ _ _ Ha).
  - intros Ha. by rewrite Hid, (map_at_absent _ _ _ Ha).
  - intros Ha. by rewrite Hoh, (scan_no_oldhash _ _ Ha).
  - intros Ha. by rewrite Hh, (scan_no_hash _ _ Ha).
  - intros Ha. by rewrite Hb, Ha.
Qed.

(** The tokens of a request that names only the extents of the canvas and
    of the tile. *)
Lemma TileDesc_parse_defaults_witness :
  exists d,
    TileDesc.parse ["width=1024"; "height=1024"; "tilewidth=256"; "tileheight=256"] = Ok d /\
    valid d /\
    TileDesc.getPart d = 0 /\ TileDesc.getTilePosX d = 0 /\
    TileDesc.getTilePosY d = 0 /\ TileDesc.getVersion d = -1 /\
    TileDesc.getImgSize d = 0 /\ TileDesc.getId d = -1 /\
    TileDesc.getOldHash d = 0 /\ TileDesc.getHash d = 0 /\
    TileDesc.getBroadcast d = false.
Proof.
  eexists. split; [reflexivity |].
  pose proof (TileDesc_parse_defaults
                ["width=1024"; "height=1024"; "tilewidth=256"; "tileheight=256"]
                _ eq_refl)
    as (Hval & Hp & Hx & Hy & Hv & Hi & Hid & Hoh & Hh & Hb).
  split; [exact Hval |].
  split_and!; first [ apply Hp | apply Hx | apply Hy | apply Hv | apply Hi
                    | apply Hid | apply Hoh | apply Hh | apply Hb ];
    first [ reflexivity | repeat constructor; intros [v Hv']; discriminate ].
Defined.

(** * Further properties of the batch *)

(** ** The record of a batch without tiles *)

Lemma seek_back_write (b : string) (c : ascii) (s : string) :
  is_empty s = false ->
  ostringstream.seekp_cur (at_end (b +:+ String c "")) (-1) << s = at_end (b +:+ s).
Proof. intros Hs. by rewrite seekp_back, write_on_last. Qed.

Lemma write_list_nil (o : ostringstream.t) (field : TileDesc.t -> Z) :
  TileCombined.write_list o field [] = o.
Proof. reflexivity. Qed.

Lemma TileCombined_serialize_empty (prefix : string) (b : TileCombined.t) :
  TileCombined._tiles b = [] ->
  TileCombined.serialize prefix b = prefix +:+ concat_tokens (empty_batch_tokens b).
Proof.
  intros Hnil. unfold TileCombined.serialize, empty_batch_tokens, kv.
  rewrite Hnil, !write_list_nil, empty_at_end, !write_at_end.
  change " tileposx=" with (" tileposx" +:+ "=").
  rewrite <- !(app_assoc_s _ " tileposx" "="), !seek_back_write by done.
  change " tileposy=" with (" tileposy" +:+ "=").
  rewrite <- !(app_assoc_s _ " tileposy" "="), !seek_back_write by done.
  change " imgsize=" with (" imgsize" +:+ "=").
  rewrite <- !(app_assoc_s _ " imgsize" "="), !seek_back_write by done.
  rewrite !write_at_end.
  change " ver=" with (" ver" +:+ "=").
  rewrite <- !(app_assoc_s _ " ver" "="), !seek_back_write by done.
  change " oldhash=" with (" oldhash" +:+ "=").
  rewrite <- !(app_assoc_s _ " oldhash" "="), !seek_back_write by done.
  change " hash=" with (" hash" +:+ "=").
  rewrite <- !(app_assoc_s _ " hash" "=").
  destruct (0 <=? TileCombined._id b); cbv iota.
  - rewrite seek_back_write, write_at_end, substr_at_end by done.
    cbn [app concat_tokens].
    rewrite !app_assoc_s; cbn [String.append]; rewrite ?app_empty_r.
    reflexivity.
  - rewrite seekp_back, substr_on_last. cbn [app concat_tokens].
    rewrite !app_assoc_s; cbn [String.append]; rewrite ?app_empty_r.
    reflexivity.
Qed.

(** X12: for a batch without tiles every seek back of
    [TileCombined::serialize] lands on the ['='] of a list key and the next
    write replaces it: the record names the six list keys without ['='] and
    without a value. *)
Theorem TileCombined_serialize_without_tiles (prefix : string) (b : TileCombined.t) :
  TileCombined.getTiles b = [] ->
  TileCombined.serialize prefix b =
    prefix +:+
    " part=" +:+ to_string (TileCombined._part b) +:+
    " width=" +:+ to_string (TileCombined._width b) +:+
    " height=" +:+ to_string (TileCombined._height b) +:+
    " tileposx tileposy imgsize" +:+
    " tilewidth=" +:+ to_string (TileCombined._tileWidth b) +:+
    " tileheight=" +:+ to_string (TileCombined._tileHeight b) +:+
    " ver oldhash hash" +:+
    (if 0 <=? TileCombined._id b
     then " id=" +:+ to_string (TileCombined._id b) else "").
Proof.
  unfold TileCombined.getTiles. intros Hnil.
  rewrite (TileCombined_serialize_empty _ _ Hnil).
  unfold empty_batch_tokens, kv.
  destruct (0 <=? TileCombined._id b); cbn [app concat_tokens];
    rewrite !app_assoc_s; cbn [String.append]; rewrite ?app_empty_r;
    reflexivity.
Qed.

Lemma TileCombined_serialize_without_tiles_witness :
  TileCombined.serialize "tilecombine" (TileCombined.mk [] 0 1024 1024 256 256 7) =
  "tilecombine part=0 width=1024 height=1024 tileposx tileposy imgsize tilewidth=256 tileheight=256 ver oldhash hash id=7".
Proof.
  apply (TileCombined_serialize_without_tiles
           "tilecombine" (TileCombined.mk [] 0 1024 1024 256 256 7)).
  reflexivity.
Defined.

Lemma TileCombined_serialize_any (prefix : string) (b : TileCombined.t) :
  TileCombined.serialize prefix b =
  prefix +:+ concat_tokens (match TileCombined._tiles b with
                            | [] => empty_batch_tokens b
                            | _ :: _ => TileCombined_tokens b
                            end).
Proof.
  destruct (TileCombined._tiles b) as [|t ts] eqn:Hts.
  - by apply TileCombined_serialize_empty.
  - apply TileCombined_serialize_tokens. by rewrite Hts.
Qed.

(** X13: [TileCombined::serialize] writes its prefix verbatim in front of
    the record it writes without one, for every batch, with or without
    tiles. *)
Theorem TileCombined_serialize_prefix (prefix : string) (b : TileCombined.t) :
  TileCombined.serialize prefix b = prefix +:+ TileCombined.serialize "" b.
Proof. by rewrite !TileCombined_serialize_any. Qed.

(** ** The batch round trip *)

Lemma empty_batch_tokens_words (b : TileCombined.t) :
  Forall (fun t => is_word t = true) (empty_batch_tokens b).
Proof.
  unfold empty_batch_tokens.
  destruct (0 <=? TileCombined._id b); cbn [app];
    repeat (apply Forall_cons; split;
            [first [reflexivity
                   | apply kv_word; [reflexivity | apply to_string_not_space]] |]);
    by apply Forall_nil.
Qed.

Lemma batch_token_bare (st : TileCombined.scan) (token : string) :
  LOOLProtocol.parseNameValuePair token = None ->
  TileCombined.parse_token st token = st.
Proof. intros H. unfold TileCombined.parse_token. by rewrite H. Qed.

Lemma scan_empty_batch_tokens (b : TileCombined.t) (m : gmap string Z)
      (x y i v o h : string) :
  batch_well_typed b ->
  fold_left TileCombined.parse_token (empty_batch_tokens b)
            (TileCombined.mkScan m x y i v o h) =
  TileCombined.mkScan (batch_pairs_of b m) x y i v o h.
Proof.
  intros (? & ? & ? & ? & ? & ?). unfold empty_batch_tokens, batch_pairs_of.
  destruct (0 <=? TileCombined._id b); cbn [app fold_left];
    rewrite (batch_token_int _ _ _ _ _ _ _ "part"),
      (batch_token_int _ _ _ _ _ _ _ "width"),
      (batch_token_int _ _ _ _ _ _ _ "height") by (assumption || reflexivity);
    rewrite !(batch_token_bare _ "tileposx"), !(batch_token_bare _ "tileposy"),
      !(batch_token_bare _ "imgsize") by reflexivity;
    rewrite (batch_token_int _ _ _ _ _ _ _ "tilewidth"),
      (batch_token_int _ _ _ _ _ _ _ "tileheight") by (assumption || reflexivity);
    rewrite !(batch_token_bare _ "ver"), !(batch_token_bare _ "oldhash"),
      !(batch_token_bare _ "hash") by reflexivity;
    rewrite ?(batch_token_int _ _ _ _ _ _ _ "id") by (assumption || reflexivity);
    reflexivity.
Qed.

Lemma TileCombined_parse_own_tokens (b : TileCombined.t) :
  batch_valid b ->
  TileCombined.parse (match TileCombined._tiles b with
                      | [] => empty_batch_tokens b
                      | _ :: _ => TileCombined_tokens b
                      end) = Ok b.
Proof.
  intros (Hty & Hinv & Hid & Hts). unfold TileCombined.parse.
  destruct b as [ts part width height tw th id].
  assert (Hmid : (if 0 <=? id then id else -1) = id)
    by (simpl in Hid; destruct (Z.leb_spec 0 id); lia).
  destruct ts as [|t ts]; cbn [TileCombined._tiles].
  - rewrite (scan_empty_batch_tokens _ _ _ _ _ _ _ _ Hty).
    cbn [TileCombined.pairs TileCombined.tilePositionsX TileCombined.tilePositionsY
         TileCombined.imgSizes TileCombined.versions TileCombined.oldhashes
         TileCombined.hashes].
    unfold batch_pairs_of. simpl in *.
    destruct (0 <=? id) eqn:Hid0;
      rewrite !map_at_insert, ?map_at_empty; cbn [String.eqb Ascii.eqb Bool.eqb];
      rewrite ?Hmid;
      (apply TileCombined_ok;
       [ assumption | assumption | reflexivity | reflexivity | reflexivity
       | left; by split | reflexivity | reflexivity ]).
  - remember (t :: ts) as tiles eqn:Etiles. clear Etiles.
    rewrite (scan_TileCombined_tokens _ _ _ _ _ _ _ _ Hty).
    cbn [TileCombined.pairs TileCombined.tilePositionsX TileCombined.tilePositionsY
         TileCombined.imgSizes TileCombined.versions TileCombined.oldhashes
         TileCombined.hashes].
    unfold batch_pairs_of. simpl in *.
    destruct (0 <=? id) eqn:Hid0;
      rewrite !map_at_insert, ?map_at_empty; cbn [String.eqb Ascii.eqb Bool.eqb];
      rewrite ?Hmid;
      (apply TileCombined_ok;
       [ assumption | assumption
       | apply tokens_join_with, list_of_elements
       | apply tokens_join_with, list_of_elements
       | apply tokens_join_with, list_of_elements
       | right; apply tokens_join_with, list_of_elements
       | apply tokens_join_with, list_of_elements
       | apply tokens_join_with, list_of_elements ]).
Qed.

Lemma TileCombined_parse_cons_bare (token : string) (tokens : list string) :
  LOOLProtocol.parseNameValuePair token = None ->
  TileCombined.parse (token :: tokens) = TileCombined.parse tokens.
Proof.
  intros H. unfold TileCombined.parse. cbn [fold_left].
  by rewrite (batch_token_bare _ _ H).
Qed.

(** X14: the batch round trip: for every batch the constructor can have
    built (scalars within the invariants, an id of at least -1, tiles of
    the batch's geometry and id, with or without tiles) and every prefix
    without whitespace and ['='], parsing [b.serialize(prefix)] gives back
    the batch, tile by tile and field by field. *)
Theorem TileCombined_roundtrip (prefix : string) (b : TileCombined.t) :
  plain_prefix prefix -> batch_valid b ->
  TileCombined.parse_message (TileCombined.serialize prefix b) = Ok b.
Proof.
  intros [Hsp Heq] Hb. unfold TileCombined.parse_message.
  rewrite TileCombined_serialize_any.
  rewrite tokenize_prefixed
    by (exact Hsp ||
        (destruct (TileCombined._tiles b);
         [apply empty_batch_tokens_words | apply TileCombined_tokens_words])).
  destruct (is_empty prefix).
  - by apply TileCombined_parse_own_tokens.
  - rewrite TileCombined_parse_cons_bare by by apply parse_bare_word.
    by apply TileCombined_parse_own_tokens.
Qed.

Lemma batch_without_tiles_valid : batch_valid batch_without_tiles.
Proof.
  unfold batch_valid, batch_well_typed, batch_invariants, is_int, INT_MIN, INT_MAX.
  simpl. split_and!; try lia. constructor.
Qed.

Lemma TileCombined_roundtrip_witness :
  TileCombined.parse_message (TileCombined.serialize "tilecombine" batch_without_tiles) =
  Ok batch_without_tiles.
Proof.
  apply (TileCombined_roundtrip "tilecombine" batch_without_tiles).
  - split; reflexivity.
  - exact batch_without_tiles_valid.
Defined.

(** ** What the constructor checks and builds *)

Lemma batch_scalars_inv part width height tileWidth tileHeight :
  (part <? 0) || (width <=? 0) || (height <=? 0) ||
  (tileWidth <=? 0) || (tileHeight <=? 0) = false ->
  batch_invariants part width height tileWidth tileHeight.
Proof.
  rewrite !orb_false_iff, Z.ltb_ge, !Z.leb_gt. unfold batch_invariants. tauto.
Qed.

Lemma batch_scalars_bad part width height tileWidth tileHeight :
  ~ batch_invariants part width height tileWidth tileHeight ->
  (part <? 0) || (width <=? 0) || (height <=? 0) ||
  (tileWidth <=? 0) || (tileHeight <=? 0) = true.
Proof.
  intros H. apply not_false_iff_true. intros Hf. by apply H, batch_scalars_inv.
Qed.

(** X15: when one of the scalar invariants of a batch is violated
    ([part < 0], [width <= 0], [height <= 0], [tileWidth <= 0] or
    [tileHeight <= 0]) the constructor throws its invalid-descriptor
    exception before it looks at any list, whatever the lists are. *)
Theorem TileCombined_scalars_rejected part width height xs ys tileWidth tileHeight
        vers imgs id ohs hs :
  part < 0 \/ width <= 0 \/ height <= 0 \/ tileWidth <= 0 \/ tileHeight <= 0 ->
  TileCombined.TileCombined part width height xs ys tileWidth tileHeight
                            vers imgs id ohs hs =
  Throw (BadArgumentException "Invalid tilecombine descriptor.").
Proof.
  intros H. unfold TileCombined.TileCombined.
  rewrite batch_scalars_bad; [done |]. unfold batch_invariants. lia.
Qed.

Lemma TileCombined_scalars_rejected_witness :
  TileCombined.TileCombined 0 1024 1024 "0,256" "0" 0 256 "x" "" (-1) "" "" =
  Throw (BadArgumentException "Invalid tilecombine descriptor.").
Proof.
  apply (TileCombined_scalars_rejected 0 1024 1024 "0,256" "0" 0 256 "x" "" (-1) "" "").
  lia.
Defined.

Lemma cardinality_checked (n cy ci cv co ch : nat) (imgs vers ohs hs : string) :
  negb (n =? cy)%nat ||
  (negb (is_empty imgs) && negb (n =? ci)%nat) ||
  (negb (is_empty vers) && negb (n =? cv)%nat) ||
  (negb (is_empty ohs) && negb (n =? co)%nat) ||
  (negb (is_empty hs) && negb (n =? ch)%nat) = false ->
  cy = n /\ (imgs = "" \/ ci = n) /\ (vers = "" \/ cv = n) /\
  (ohs = "" \/ co = n) /\ (hs = "" \/ ch = n).
Proof.
  rewrite !orb_false_iff, !andb_false_iff, !negb_false_iff, !Nat.eqb_eq,
    !is_empty_true.
  intuition.
Qed.

(** What a successful construction says about its arguments. *)
Lemma TileCombined_inv_counts part width height xs ys tileWidth tileHeight
      vers imgs id ohs hs (b : TileCombined.t) :
  TileCombined.TileCombined part width height xs ys tileWidth tileHeight
                            vers imgs id ohs hs = Ok b ->
  batch_invariants part width height tileWidth tileHeight /\
  element_count ys = element_count xs /\
  (imgs = "" \/ element_count imgs = element_count xs) /\
  (vers = "" \/ element_count vers = element_count xs) /\
  (ohs = "" \/ element_count ohs = element_count xs) /\
  (hs = "" \/ element_count hs = element_count xs).
Proof.
  unfold TileCombined.TileCombined, element_count.
  match goal with
  | |- (if ?c then _ else _) = _ -> _ => destruct c eqn:Hsc; [discriminate |]
  end.
  match goal with
  | |- (if ?c then _ else _) = _ -> _ => destruct c eqn:Hcard; [discriminate |]
  end.
  intros _.
  split; [by apply batch_scalars_inv |].
  by apply cardinality_checked in Hcard.
Qed.

Lemma at_inv (toks : list string) (i : nat) (tok : string) :
  StringTokenizer.at_ toks i = Ok tok -> toks !! i = Some tok.
Proof. unfold StringTokenizer.at_. by destruct (toks !! i); intros [= ->]. Qed.

Lemma throw_unless_inv {A : Type} (o : option A) (e : exception) (a : A) :
  throw_unless o e = Ok a -> o = Some a.
Proof. by destruct o; intros [= ->]. Qed.

Lemma optional_field_inv (toks : list string) (i : nat)
      (convert : string -> option Z) (dflt : Z) (e : exception) (v : Z) :
  TileCombined.optional_field toks i convert dflt e = Ok v ->
  forall tok, toks !! i = Some tok -> convert tok = Some v.
Proof.
  unfold TileCombined.optional_field, StringTokenizer.count.
  destruct toks as [|t0 toks]; [by intros _ tok; rewrite lookup_nil |].
  cbn [length Nat.eqb].
  destruct (StringTokenizer.at_ (t0 :: toks) i) as [tok' | e'] eqn:Hat;
    simpl; [|discriminate].
  intros Hc%throw_unless_inv tok Htok.
  apply at_inv in Hat. congruence.
Qed.

(** What the loop body read to build the tile for index [i]. *)
Lemma tile_at_reads part width height tileWidth tileHeight id
      xtoks ytoks imgtoks vertoks ohtoks htoks (i : nat) (t : TileDesc.t) :
  TileCombined.tile_at part width height tileWidth tileHeight id
                       xtoks ytoks imgtoks vertoks ohtoks htoks i = Ok t ->
  valid t /\
  (forall tok, xtoks !! i = Some tok ->
               LOOLProtocol.stringToInteger tok = Some (TileDesc._tilePosX t)) /\
  (forall tok, ytoks !! i = Some tok ->
               LOOLProtocol.stringToInteger tok = Some (TileDesc._tilePosY t)) /\
  (forall tok, imgtoks !! i = Some tok ->
               LOOLProtocol.stringToInteger tok = Some (TileDesc._imgSize t)) /\
  (forall tok, vertoks !! i = Some tok -> is_empty tok = false ->
               LOOLProtocol.stringToInteger tok = Some (TileDesc._ver t)) /\
  (forall tok, ohtoks !! i = Some tok ->
               LOOLProtocol.stringToUInt64 tok = Some (TileDesc._oldHash t)) /\
  (forall tok, htoks !! i = Some tok ->
               LOOLProtocol.stringToUInt64 tok = Some (TileDesc._hash t)).
Proof.
  unfold TileCombined.tile_at. intros H.
  repeat match type of H with
         | mbind _ ?r = _ => destruct r eqn:?; simpl in H; [|discriminate]
         end.
  injection H as <-.
  match goal with
  | Hc : TileDesc.TileDesc _ _ _ _ _ _ _ _ _ _ _ = Ok _ |- _ =>
      apply TileDesc_inv in Hc as [Hinv ->]
  end.
  repeat match goal with
         | Hc : StringTokenizer.at_ _ _ = Ok _ |- _ => apply at_inv in Hc
         | Hc : throw_unless _ _ = Ok _ |- _ => apply throw_unless_inv in Hc
         end.
  unfold valid. simpl. split_and!; try done.
  - intros tok Htok. congruence.
  - intros tok Htok. congruence.
  - by eapply optional_field_inv.
  - intros tok Htok Hne.
    match goal with
    | Hv : (if ?c then _ else _) = Ok _ |- _ =>
        unfold StringTokenizer.count in Hv;
        destruct vertoks as [|v0 vertoks]; [by rewrite lookup_nil in Htok |];
        cbn [length Nat.eqb] in Hv;
        destruct (StringTokenizer.at_ (v0 :: vertoks) i) as [vtok | e'] eqn:Hat;
        simpl in Hv; [|discriminate];
        apply at_inv in Hat; assert (vtok = tok) as -> by congruence;
        rewrite Hne in Hv; by apply throw_unless_inv in Hv
    end.
  - by eapply optional_field_inv.
  - by eapply optional_field_inv.
Qed.

Lemma tokens_nonempty (s separators : string) :
  Forall (fun t => is_empty t = false) (StringTokenizer.tokens s separators).
Proof.
  unfold StringTokenizer.tokens. apply List.Forall_forall.
  intros t [_ Ht]%filter_In. by apply negb_true_iff.
Qed.

Lemma loop_reads (f : nat -> result TileDesc.t) (toks : list string)
      (tiles : list TileDesc.t) (P : string -> TileDesc.t -> Prop) :
  Forall2 (fun i t => f i = Ok t) (seq 0 (length toks)) tiles ->
  (forall i t tok, f i = Ok t -> toks !! i = Some tok -> P tok t) ->
  Forall2 P toks tiles.
Proof.
  intros Hloop HP. apply Forall2_same_length_lookup_2.
  - apply Forall2_length in Hloop. by rewrite length_seq in Hloop.
  - intros i tok t Htok Ht.
    eapply HP; [|exact Htok].
    eapply (Forall2_lookup_lr _ _ _ i i t Hloop); [|exact Ht].
    apply lookup_seq. split; [done |]. by eapply lookup_lt_Some.
Qed.

(** X16: a batch the constructor returns carries the scalars it was given,
    which satisfy the invariants; its tiles are the elements of the
    tileposx and tileposy lists read as integers, one tile per element in
    list order; each imgsize, ver, oldhash or hash list that is not the
    empty string is read the same way into that field of the tiles; and
    every tile satisfies the invariants of a descriptor. *)
Theorem TileCombined_reads_lists part width height xs ys tileWidth tileHeight
        vers imgs id ohs hs (b : TileCombined.t) :
  TileCombined.TileCombined part width height xs ys tileWidth tileHeight
                            vers imgs id ohs hs = Ok b ->
  batch_invariants part width height tileWidth tileHeight /\
  (TileCombined.getPart b = part /\ TileCombined.getWidth b = width /\
   TileCombined.getHeight b = height /\ TileCombined.getTileWidth b = tileWidth /\
   TileCombined.getTileHeight b = tileHeight /\ TileCombined._id b = id) /\
  reads LOOLProtocol.stringToInteger (StringTokenizer.tokens xs ",")
        TileDesc.getTilePosX (TileCombined.getTiles b) /\
  reads LOOLProtocol.stringToInteger (StringTokenizer.tokens ys ",")
        TileDesc.getTilePosY (TileCombined.getTiles b) /\
  (imgs <> "" ->
   reads LOOLProtocol.stringToInteger (StringTokenizer.tokens imgs ",")
         TileDesc.getImgSize (TileCombined.getTiles b)) /\
  (vers <> "" ->
   reads LOOLProtocol.stringToInteger (StringTokenizer.tokens vers ",")
         TileDesc.getVersion (TileCombined.getTiles b)) /\
  (ohs <> "" ->
   reads LOOLProtocol.stringToUInt64 (StringTokenizer.tokens ohs ",")
         TileDesc.getOldHash (TileCombined.getTiles b)) /\
  (hs <> "" ->
   reads LOOLProtocol.stringToUInt64 (StringTokenizer.tokens hs ",")
         TileDesc.getHash (TileCombined.getTiles b)) /\
  Forall valid (TileCombined.getTiles b).
Proof.
  intros H.
  pose proof (TileCombined_inv_counts _ _ _ _ _ _ _ _ _ _ _ _ _ H)
    as (Hinv & Hy & Hi & Hv & Ho & Hh).
  apply TileCombined_inv in H as (tiles & -> & Hloop).
  unfold element_count, StringTokenizer.count in *.
  unfold TileCombined.getTiles, reads. cbn [TileCombined._tiles].
  split; [exact Hinv |]. split; [done |].
  split_and!.
  - eapply loop_reads; [exact Hloop |].
    intros i t tok Ht Htok. by apply (tile_at_reads _ _ _ _ _ _ _ _ _ _ _ _ _ _ Ht).
  - rewrite <- Hy in Hloop. eapply loop_reads; [exact Hloop |].
    intros i t tok Ht Htok. by apply (tile_at_reads _ _ _ _ _ _ _ _ _ _ _ _ _ _ Ht).
  - intros Hne. destruct Hi as [? | Hi]; [done |]. rewrite <- Hi in Hloop.
    eapply loop_reads; [exact Hloop |].
    intros i t tok Ht Htok. by apply (tile_at_reads _ _ _ _ _ _ _ _ _ _ _ _ _ _ Ht).
  - intros Hne. destruct Hv as [? | Hv]; [done |]. rewrite <- Hv in Hloop.
    eapply loop_reads; [exact Hloop |].
    intros i t tok Ht Htok.
    apply (tile_at_reads _ _ _ _ _ _ _ _ _ _ _ _ _ _ Ht); [exact Htok |].
    pose proof (tokens_nonempty vers ",") as Hall.
    by eapply (Forall_lookup_1 _ _ _ _ Hall Htok).
  - intros Hne. destruct Ho as [? | Ho]; [done |]. rewrite <- Ho in Hloop.
    eapply loop_reads; [exact Hloop |].
    intros i t tok Ht Htok. by apply (tile_at_reads _ _ _ _ _ _ _ _ _ _ _ _ _ _ Ht).
  - intros Hne. destruct Hh as [? | Hh]; [done |]. rewrite <- Hh in Hloop.
    eapply loop_reads; [exact Hloop |].
    intros i t tok Ht Htok. by apply (tile_at_reads _ _ _ _ _ _ _ _ _ _ _ _ _ _ Ht).
  - clear -Hloop. induction Hloop as [|i t l ts Hi _ IH]; constructor; [|exact IH].
    apply tile_at_reads in Hi as [Hval _]. exact Hval.
Qed.

Lemma TileCombined_reads_lists_witness :
  reads LOOLProtocol.stringToInteger ["0"; "256"] TileDesc.getTilePosX
        (TileCombined.getTiles batch_of_message) /\
  Forall valid (TileCombined.getTiles batch_of_message).
Proof.
  pose proof (TileCombined_reads_lists 0 1024 1024 "0, 256," "0,0" 256 256
                                       "" "" 7 "" "" batch_of_message eq_refl)
    as (_ & _ & Hx & _ & _ & _ & _ & _ & Hval).
  split; [exact Hx | exact Hval].
Defined.

Lemma loop_throw_inv (f : nat -> result TileDesc.t) (l : list nat)
      (acc : list TileDesc.t) (e : exception) :
  fold_left (TileCombined.append_tile f) l (Ok acc) = Throw e ->
  exists i, In i l /\ f i = Throw e.
Proof.
  revert acc. induction l as [|i l IH]; intros acc; simpl; [discriminate |].
  destruct (f i) as [t | e'] eqn:Hi; simpl.
  - intros (j & Hj & Hfj)%IH. exists j. auto.
  - rewrite loop_throw. intros [= ->]. exists i. auto.
Qed.

Lemma at_in_range (toks : list string) (i : nat) :
  (i < length toks)%nat -> exists tok, StringTokenizer.at_ toks i = Ok tok.
Proof.
  intros [tok Htok]%lookup_lt_is_Some_2. exists tok.
  unfold StringTokenizer.at_. by rewrite Htok.
Qed.

Ltac known_message :=
  eexists; split; [reflexivity | unfold batch_messages; simpl; tauto].

Lemma optional_field_throws (toks : list string) (i n : nat)
      (convert : string -> option Z) (dflt : Z) (what : string) (e : exception) :
  (i < n)%nat -> toks = [] \/ length toks = n ->
  TileCombined.optional_field toks i convert dflt (BadArgumentException what) = Throw e ->
  e = BadArgumentException what.
Proof.
  intros Hi Hlen. unfold TileCombined.optional_field, StringTokenizer.count.
  destruct Hlen as [-> | Hlen]; [done |].
  destruct (at_in_range toks i) as [tok ->]; [lia |].
  destruct toks; [simpl in Hlen; lia |]. simpl.
  destruct (convert tok); simpl; congruence.
Qed.

Lemma tile_at_throws part width height tileWidth tileHeight id
      xtoks ytoks imgtoks vertoks ohtoks htoks (i : nat) (e : exception) :
  (i < length xtoks)%nat -> length ytoks = length xtoks ->
  imgtoks = [] \/ length imgtoks = length xtoks ->
  vertoks = [] \/ length vertoks = length xtoks ->
  ohtoks = [] \/ length ohtoks = length xtoks ->
  htoks = [] \/ length htoks = length xtoks ->
  TileCombined.tile_at part width height tileWidth tileHeight id
                       xtoks ytoks imgtoks vertoks ohtoks htoks i = Throw e ->
  bad_argument e.
Proof.
  intros Hi Hy Himg Hver Hoh Hh. unfold TileCombined.tile_at, bad_argument.
  destruct (at_in_range xtoks i Hi) as [xtok ->]. simpl.
  destruct (LOOLProtocol.stringToInteger xtok); simpl;
    [|intros [= <-]; known_message].
  destruct (at_in_range ytoks i) as [ytok ->]; [lia |]. simpl.
  destruct (LOOLProtocol.stringToInteger ytok); simpl;
    [|intros [= <-]; known_message].
  pose proof (optional_field_throws imgtoks i (length xtoks) LOOLProtocol.stringToInteger 0
                "Invalid 'imgsize' in tilecombine descriptor.") as H1.
  destruct (TileCombined.optional_field imgtoks _ _ _ _); simpl;
    [|intros [= <-]; rewrite (H1 _ Hi Himg eq_refl); known_message].
  assert (Hv : forall r,
             (if (StringTokenizer.count vertoks =? 0)%nat then Ok (-1)
              else vtok ← StringTokenizer.at_ vertoks i;
                   if is_empty vtok then Ok (-1)
                   else throw_unless (LOOLProtocol.stringToInteger vtok)
                          (BadArgumentException
                             "Invalid 'ver' in tilecombine descriptor.")) = Throw r ->
             r = BadArgumentException "Invalid 'ver' in tilecombine descriptor.").
  { intros r. unfold StringTokenizer.count.
    destruct Hver as [-> | Hver]; [done |].
    destruct (at_in_range vertoks i) as [vtok ->]; [lia |].
    destruct vertoks; [simpl in Hver; lia |]. simpl.
    destruct (is_empty vtok); [done |].
    destruct (LOOLProtocol.stringToInteger vtok); simpl; congruence. }
  match goal with
  | |- mbind _ ?r = _ -> _ =>
      destruct r; simpl; [|intros [= <-]; rewrite (Hv _ eq_refl); known_message]
  end.
  pose proof (optional_field_throws ohtoks i (length xtoks) LOOLProtocol.stringToUInt64 0
                "Invalid tilecombine descriptor.") as H2.
  destruct (TileCombined.optional_field ohtoks _ _ _ _); simpl;
    [|intros [= <-]; rewrite (H2 _ Hi Hoh eq_refl); known_message].
  pose proof (optional_field_throws htoks i (length xtoks) LOOLProtocol.stringToUInt64 0
                "Invalid tilecombine descriptor.") as H3.
  destruct (TileCombined.optional_field htoks _ _ _ _); simpl;
    [|intros [= <-]; rewrite (H3 _ Hi Hh eq_refl); known_message].
  unfold TileDesc.TileDesc. destruct (_ || _); simpl; [|done].
  intros [= <-]. known_message.
Qed.

(** X17: whenever the constructor of a batch fails it throws a
    [BadArgumentException] with one of its seven messages; it never throws
    [Poco::RangeException], because the cardinality check it makes before
    the loop keeps every [tokens[i]] of the loop within its tokenizer. *)
Theorem TileCombined_throws_bad_argument part width height xs ys tileWidth tileHeight
        vers imgs id ohs hs (e : exception) :
  TileCombined.TileCombined part width height xs ys tileWidth tileHeight
                            vers imgs id ohs hs = Throw e ->
  (exists what, e = BadArgumentException what /\ In what batch_messages) /\
  e <> RangeException.
Proof.
  intros H. assert (Hbad : bad_argument e); [|split; [exact Hbad |]].
  - revert H. unfold TileCombined.TileCombined, TileCombined.unequal_number.
    match goal with
    | |- (if ?c then _ else _) = _ -> _ =>
        destruct c; [intros [= <-]; known_message |]
    end.
    match goal with
    | |- (if ?c then _ else _) = _ -> _ =>
        destruct c eqn:Hcard; [intros [= <-]; known_message |]
    end.
    apply cardinality_checked in Hcard as (Hy & Hi & Hv & Ho & Hh).
    unfold StringTokenizer.count in *.
    match goal with
    | |- mbind _ ?r = _ -> _ =>
        destruct r as [tiles | e'] eqn:Hloop; simpl; [done |]
    end.
    intros [= ->]. apply loop_throw_inv in Hloop as (i & Hin & Hthrow).
    apply in_seq in Hin. revert Hthrow. apply tile_at_throws.
    + lia.
    + done.
    + destruct Hi as [-> | Hi]; [by left | by right].
    + destruct Hv as [-> | Hv]; [by left | by right].
    + destruct Ho as [-> | Ho]; [by left | by right].
    + destruct Hh as [-> | Hh]; [by left | by right].
  - destruct Hbad as (what & -> & _). discriminate.
Qed.

Lemma TileCombined_throws_bad_argument_witness :
  (exists what,
      BadArgumentException "Invalid 'tileposy' in tilecombine descriptor." =
      BadArgumentException what /\ In what batch_messages) /\
  BadArgumentException "Invalid 'tileposy' in tilecombine descriptor." <> RangeException.
Proof.
  apply (TileCombined_throws_bad_argument 0 1024 1024 "0,256" "0,y" 256 256
                                          "" "" (-1) "" "").
  reflexivity.
Defined.

(** X18: with the scalar invariants satisfied and no element in any of the
    six lists (empty strings, or strings of commas and blanks only), the
    constructor returns the batch without tiles. *)
Theorem TileCombined_no_elements part width height xs ys tileWidth tileHeight
        vers imgs id ohs hs :
  batch_invariants part width height tileWidth tileHeight ->
  element_count xs = 0%nat -> element_count ys = 0%nat ->
  element_count imgs = 0%nat -> element_count vers = 0%nat ->
  element_count ohs = 0%nat -> element_count hs = 0%nat ->
  TileCombined.TileCombined part width height xs ys tileWidth tileHeight
                            vers imgs id ohs hs =
  Ok (TileCombined.mk [] part width height tileWidth tileHeight id).
Proof.
  unfold element_count. intros Hinv Hx Hy Hi Hv Ho Hh.
  unfold TileCombined.TileCombined.
  rewrite (batch_scalars_ok _ _ _ _ _ Hinv), Hx, Hy, Hi, Hv, Ho, Hh.
  cbn [Nat.eqb negb]. rewrite !andb_false_r. reflexivity.
Qed.

Lemma TileCombined_no_elements_witness :
  TileCombined.TileCombined 0 1024 1024 "" " , ," 256 256 "," "" 7 "" " " =
  Ok batch_without_tiles.
Proof.
  apply (TileCombined_no_elements 0 1024 1024 "" " , ," 256 256 "," "" 7 "" " ");
    [exact batch_invariants_example | reflexivity ..].
Defined.

(** ** [create] and tiles of different geometry *)

Lemma adopt_of_batch (tile0 t : TileDesc.t) :
  well_typed tile0 -> valid tile0 -> well_typed t -> valid t ->
  tile_of_batch (TileDesc._part tile0) (TileDesc._width tile0)
                (TileDesc._height tile0) (TileDesc._tileWidth tile0)
                (TileDesc._tileHeight tile0) (-1) (adopt tile0 t).
Proof.
  unfold tile_of_batch, adopt, well_typed, valid, scalar_invariants.
  simpl. unfold is_int, INT_MIN, INT_MAX. intuition lia.
Qed.

(** X19: [create] takes the part, width, height, tileWidth and tileHeight
    of the first tile for the batch and for every tile of it, whatever the
    geometry of the other tiles is: for valid tiles it never fails, it keeps
    the order, the positions, the versions and the hashes, and it resets
    every image size to 0, every id to -1 and every broadcast flag. *)
Theorem create_adopts_first_geometry (tile0 : TileDesc.t) (rest : list TileDesc.t) :
  Forall well_typed (tile0 :: rest) -> Forall valid (tile0 :: rest) ->
  TileCombined.create (tile0 :: rest) =
  Ok (TileCombined.mk (List.map (adopt tile0) (tile0 :: rest))
                      (TileDesc.getPart tile0) (TileDesc.getWidth tile0)
                      (TileDesc.getHeight tile0) (TileDesc.getTileWidth tile0)
                      (TileDesc.getTileHeight tile0) (-1)).
Proof.
  intros Hty Hval. unfold TileCombined.create.
  set (tiles := tile0 :: rest) in *.
  apply TileCombined_ok.
  - pose proof (Forall_inv Hval) as Hv0. unfold valid, scalar_invariants in Hv0.
    unfold batch_invariants, TileDesc.getPart, TileDesc.getWidth,
      TileDesc.getHeight, TileDesc.getTileWidth, TileDesc.getTileHeight. tauto.
  - change (List.map (adopt tile0) tiles) with (adopt tile0 <$> tiles).
    pose proof (Forall_inv Hty) as Hty0. pose proof (Forall_inv Hval) as Hval0.
    apply Forall_fmap. rewrite Forall_forall in *.
    intros t Ht. apply adopt_of_batch; auto.
  - rewrite tokens_collect. unfold list_of. by rewrite List.map_map.
  - rewrite tokens_collect. unfold list_of. by rewrite List.map_map.
  - rewrite str_seekp_cur, tokens_collect. unfold list_of. by rewrite List.map_map.
  - left. split; [done |].
    change (List.map (adopt tile0) tiles) with (adopt tile0 <$> tiles).
    apply Forall_fmap. by apply Forall_true.
  - rewrite tokens_collect. unfold list_of. by rewrite List.map_map.
  - rewrite tokens_collect. unfold list_of. by rewrite List.map_map.
Qed.

Lemma create_adopts_first_geometry_witness :
  TileCombined.create [tile_a; tile_c] =
  Ok (TileCombined.mk
        [ TileDesc.mk 0 1024 1024 0 0 256 256 1 0 (-1) false 7 9;
          TileDesc.mk 0 1024 1024 512 256 256 256 4 0 (-1) false 15 17 ]
        0 1024 1024 256 256 (-1)).
Proof.
  apply (create_adopts_first_geometry tile_a [tile_c]).
  - repeat constructor;
      unfold is_int, is_uint64, INT_MIN, INT_MAX, UINT64_MAX; simpl; lia.
  - repeat constructor; simpl; lia.
Defined.

(** ** Tokens the batch parser cannot read *)

Lemma batch_token_unreadable (st : TileCombined.scan) (token : string) :
  batch_unreadable token -> TileCombined.parse_token st token = st.
Proof.
  unfold batch_unreadable, TileCombined.parse_token.
  destruct (LOOLProtocol.parseNameValuePair token) as [[name value]|]; [|done].
  intros [Hname ->].
  repeat match goal with
         | |- context [String.eqb name ?k] =>
             destruct (String.eqb_spec name k) as [-> | _];
             [exfalso; apply Hname; simpl; tauto |]
         end.
  reflexivity.
Qed.

(** X20: [TileCombined::parse] skips a token without ['='], and a token
    whose name is none of the six list keys and whose value is no integer
    (a [broadcast=yes], say): it returns what it returns for the token list
    without that token. *)
Theorem TileCombined_parse_skips_unreadable (before after : list string)
        (token : string) :
  batch_unreadable token ->
  TileCombined.parse (before ++ token :: after) = TileCombined.parse (before ++ after).
Proof.
  intros Htok. unfold TileCombined.parse.
  rewrite !fold_left_app. cbn [fold_left].
  by rewrite (batch_token_unreadable _ _ Htok).
Qed.

Lemma TileCombined_parse_skips_unreadable_witness :
  TileCombined.parse (["tilecombine"; "part=0"; "width=1024"] ++
                      "broadcast=yes" :: ["height=1024"; "tileposx=0,256";
                                          "tileposy=0,0"; "tilewidth=256";
                                          "tileheight=256"; "id=7"]) =
  TileCombined.parse (["tilecombine"; "part=0"; "width=1024"] ++
                      ["height=1024"; "tileposx=0,256"; "tileposy=0,0";
                       "tilewidth=256"; "tileheight=256"; "id=7"]).
Proof.
  apply (TileCombined_parse_skips_unreadable
           ["tilecombine"; "part=0"; "width=1024"] _ "broadcast=yes").
  unfold batch_unreadable. simpl. split; [|reflexivity].
  intros H. repeat destruct H as [H | H]; try discriminate H. exact H.
Defined.
